(** * pyemu: template / instruction file parsing and the null-space
      Monte Carlo engine

    A shallow embedding of [pyemu/pst/pst_utils.py] (the functions
    [parse_tpl_file], [parse_ins_file], [parse_ins_string]) and of
    [pyemu/mc.py] (the class [MonteCarlo]: [__init__], [num_reals],
    [get_nsing], [get_null_proj], [write_psts]), with the properties of
    these functions.

    Conventions of the embedding:
    - a Python [str] is a [string] of 8-bit characters (the files are ASCII
      text); slicing, [index], [strip], [split] and [lower] are written out
      as recursive functions in [pystr];
    - a call that may raise returns a [result]: [Ok v] for a normal return,
      [Raise e] for a Python exception; the [while True] loop of
      [parse_ins_string] runs on fuel, and [OutOfFuel] is shown never to
      occur ([parse_ins_string_total]);
    - a text file is the list of its lines, a file system binds paths to
      files;
    - a float is an exact rational, or one of the values a division by
      zero gives (infinities, NaN); rounding is not modelled;
    - the methods of [MonteCarlo] that log or write files run in the
      state-and-error monad [mc.M] over a [World]: the control files
      written, in order, and the phrases logged;
    - the collaborators of [MonteCarlo] that live in other files of pyemu
      (matrices, ensembles, the control file) are modelled from the
      specification, each where it is introduced. *)

From Stdlib Require Import String Ascii List Arith Bool Lia ZArith.
From Stdlib Require Import DecimalString DecimalNat.
From Stdlib Require Import QArith Permutation.
Import ListNotations.

Close Scope Q_scope.
Open Scope string_scope.
Open Scope list_scope.
Open Scope nat_scope.

(** ** Python exceptions and results *)

Inductive exn : Type :=
| AssertionError (msg : string)
| IndexError
| ValueError
| KeyError
| IOError
| Exception (msg : string).

Inductive result (A : Type) : Type :=
| Ok (a : A)
| Raise (e : exn)
| OutOfFuel.

Arguments Ok {A} a.
Arguments Raise {A} e.
Arguments OutOfFuel {A}.

Definition bind {A B : Type} (m : result A) (k : A -> result B) : result B :=
  match m with
  | Ok a => k a
  | Raise e => Raise e
  | OutOfFuel => OutOfFuel
  end.

Definition res_map {A B : Type} (f : A -> B) (m : result A) : result B :=
  bind m (fun a => Ok (f a)).

Declare Scope py_scope.
Delimit Scope py_scope with py.
Notation "x <- m ;; k" := (bind m (fun x => k))
  (at level 61, m at next level, right associativity) : py_scope.
Notation "'assert' b 'else' msg ;; k" :=
  (if (b : bool) then k else Raise (AssertionError msg))
  (at level 61, b at next level, msg at next level, right associativity) : py_scope.

Definition raises {A : Type} (m : result A) : Prop :=
  exists e, m = Raise e.

(** [str(e)] for the exceptions that occur. *)
Definition str_exn (e : exn) : string :=
  match e with
  | AssertionError msg => msg
  | IndexError => "list index out of range"
  | ValueError => "substring not found"
  | KeyError => "key"
  | IOError => "No such file or directory"
  | Exception msg => msg
  end.

(** ** Python string primitives *)

Module pystr.

Definition nl : string := String (ascii_of_nat 10) "".

(** [c.isspace()] on the ASCII range. *)
Definition is_space (c : ascii) : bool :=
  let n := nat_of_ascii c in
  ((9 <=? n) && (n <=? 13)) || ((28 <=? n) && (n <=? 32)).

Definition lower_char (c : ascii) : ascii :=
  let n := nat_of_ascii c in
  if (65 <=? n) && (n <=? 90) then ascii_of_nat (n + 32) else c.

(** [s.lower()] *)
Fixpoint lower (s : string) : string :=
  match s with
  | "" => ""
  | String c r => String (lower_char c) (lower r)
  end.

Fixpoint lstrip (s : string) : string :=
  match s with
  | "" => ""
  | String c r => if is_space c then lstrip r else s
  end.

Fixpoint rstrip (s : string) : string :=
  match s with
  | "" => ""
  | String c r =>
      match rstrip r with
      | "" => if is_space c then "" else String c ""
      | r' => String c r'
      end
  end.

(** [s.strip()] *)
Definition strip (s : string) : string := rstrip (lstrip s).

(** [s.split()]: the maximal runs of non-whitespace characters. *)
Fixpoint split_ws_from (cur : string) (s : string) : list string :=
  match s with
  | "" => match cur with "" => [] | _ => [cur] end
  | String c r =>
      if is_space c
      then match cur with
           | "" => split_ws_from "" r
           | _ => cur :: split_ws_from "" r
           end
      else split_ws_from (cur ++ String c "")%string r
  end.

Definition split_ws (s : string) : list string := split_ws_from "" s.

(** [s.split(sep)] for a separator of one character: empty fields are
    kept, and the result is never empty. *)
Fixpoint split_from (sep : ascii) (cur : string) (s : string) : list string :=
  match s with
  | "" => [cur]
  | String c r =>
      if Ascii.eqb c sep
      then cur :: split_from sep "" r
      else split_from sep (cur ++ String c "")%string r
  end.

Definition split (sep : ascii) (s : string) : list string := split_from sep "" s.

(** [sep in s] for a separator of one character. *)
Fixpoint contains (sep : ascii) (s : string) : bool :=
  match s with
  | "" => false
  | String c r => Ascii.eqb c sep || contains sep r
  end.

(** [s[n:]] for [0 <= n]. *)
Fixpoint slice_from (n : nat) (s : string) : string :=
  match n, s with
  | 0, _ => s
  | S _, "" => ""
  | S n', String _ r => slice_from n' r
  end.

(** [s[:n]] for [0 <= n]. *)
Fixpoint slice_to (n : nat) (s : string) : string :=
  match n, s with
  | 0, _ => ""
  | S _, "" => ""
  | S n', String c r => String c (slice_to n' r)
  end.

(** [s[i:j]] for [0 <= i] and [0 <= j]; empty when [j <= i]. *)
Definition slice (i j : nat) (s : string) : string :=
  slice_to (j - i) (slice_from i s).

(** [s.index(c)] for a one-character [c]: the first position of [c];
    Python raises [ValueError] when there is none. *)
Fixpoint find (c : ascii) (s : string) : option nat :=
  match s with
  | "" => None
  | String a r => if Ascii.eqb a c then Some 0 else option_map S (find c r)
  end.

Definition index (c : ascii) (s : string) : result nat :=
  match find c s with
  | Some k => Ok k
  | None => Raise ValueError
  end.

(** [l[::2]] and [l[1::2]] *)
Fixpoint evens {A : Type} (l : list A) : list A :=
  match l with
  | [] => []
  | [x] => [x]
  | x :: _ :: r => x :: evens r
  end.

Definition odds {A : Type} (l : list A) : list A := evens (tl l).

(** [x in l] for a list of strings *)
Definition mem (x : string) (l : list string) : bool :=
  existsb (String.eqb x) l.

(** [l.index(c)] on a list of characters *)
Fixpoint list_index (c : ascii) (l : list ascii) : option nat :=
  match l with
  | [] => None
  | a :: r => if Ascii.eqb a c then Some 0 else option_map S (list_index c r)
  end.

(** [l[i]] for [0 <= i] *)
Definition getitem {A : Type} (l : list A) (i : nat) : result A :=
  match nth_error l i with
  | Some x => Ok x
  | None => Raise IndexError
  end.

(** ["{0:d}".format(n)] *)
Definition format_d (n : nat) : string :=
  NilEmpty.string_of_uint (Nat.to_uint n).

(** [str(l)] for a list of strings (quotes are not escaped) *)
Definition str_list (l : list string) : string :=
  ("[" ++ String.concat ", " (map (fun x => "'" ++ x ++ "'") l) ++ "]")%string.

(** [for x in l: st = body(st, x)], stopping at the first exception *)
Fixpoint for_each {A St : Type} (l : list A) (body : St -> A -> result St)
    (st : St) : result St :=
  match l with
  | [] => Ok st
  | x :: r => bind (body st x) (for_each r body)
  end.

(** Text files: a path is bound to the lines of the file, each with its
    line terminator. *)
Definition file : Type := list string.
Definition filesystem : Type := list (string * file).

Fixpoint open (fs : filesystem) (path : string) : result file :=
  match fs with
  | [] => Raise IOError
  | (p, f) :: fs' => if String.eqb p path then Ok f else open fs' path
  end.

(** [f.readline()] and the lines left for [for line in f] *)
Definition readline (f : file) : string * file :=
  match f with
  | [] => ("", [])
  | l :: r => (l, r)
  end.

End pystr.

(** ** pyemu/pst/pst_utils.py *)

Module pst_utils.
Import pystr.
Local Open Scope py_scope.

Definition istart_markers : list ascii := ["["; "("; "!"]%char.
Definition iend_markers : list ascii := ["]"; ")"; "!"]%char.

(** The body of [while True:] in [parse_ins_string]; [idx] and
    [obs_names] are the loop's variables. *)
Fixpoint parse_ins_loop (fuel : nat) (s : string) (idx : nat)
    (obs_names : list string) : result (list string) :=
  match fuel with
  | 0 => OutOfFuel
  | S fuel' =>
      if String.length s - 1 <=? idx then Ok obs_names
      else
        match get idx s with
        | None => Raise IndexError
        | Some char =>
            match list_index char istart_markers with
            | Some k =>
                match nth_error iend_markers k with
                | None => Raise IndexError
                | Some em =>
                    j <- index em (slice_from (idx + 1) s) ;;
                    let eidx := Nat.min (String.length s) (j + idx + 1) in
                    let obs_name := slice (idx + 1) eidx s in
                    let obs_names' :=
                      if negb (String.eqb (lower obs_name) "dum")
                      then obs_names ++ [obs_name] else obs_names in
                    parse_ins_loop fuel' s (eidx + 1) obs_names'
                end
            | None => parse_ins_loop fuel' s (idx + 1) obs_names
            end
        end
  end.

Definition parse_ins_string (s : string) : result (list string) :=
  parse_ins_loop (S (String.length s)) s 0 [].

(** [split(marker)] and [marker in line] are used once [len(marker) == 1]
    has been asserted: the marker is then its first character. *)
Definition marker_char (marker : string) : ascii :=
  match marker with
  | String m _ => m
  | "" => Ascii.zero
  end.

(** The [for line in f] loop of [parse_tpl_file]. *)
Definition tpl_lines (marker : string) (f : file) (par_names : list string)
    : list string :=
  fold_left
    (fun par_names line =>
       let par_line := odds (split (marker_char marker) (strip line)) in
       fold_left
         (fun par_names p =>
            if negb (mem p par_names) then par_names ++ [p] else par_names)
         par_line par_names)
    f par_names.

(** The [try] block of [parse_tpl_file]. *)
Definition tpl_try (f : file) : result (list string) :=
  let (line, f') := readline f in
  let header := split_ws (strip line) in
  h0 <- getitem header 0 ;;
  assert (mem (lower h0) ["ptf"; "jtf"])
    else ("template file error: must start with [ptf,jtf], not:" ++ h0)%string ;;
  assert (List.length header =? 2)
    else ("template file error: header line must have two entries: "
            ++ str_list header)%string ;;
  marker <- getitem header 1 ;;
  assert (String.length marker =? 1)
    else ("template file error: marker must be a single character, not:"
            ++ marker)%string ;;
  Ok (tpl_lines marker f' []).

Definition parse_tpl_file (fs : filesystem) (tpl_file : string)
    : result (list string) :=
  f <- open fs tpl_file ;;
  par_names <-
    match tpl_try f with
    | Raise e =>
        Raise (Exception ("error processing template file " ++ tpl_file
                            ++ " :" ++ nl ++ str_exn e)%string)
    | r => r
    end ;;
  Ok (map (fun pn => lower (strip pn)) par_names).

(** The [for line in f] loop of [parse_ins_file]. *)
Definition ins_lines (marker : string) (f : file) (obs_names : list string)
    : result (list string) :=
  for_each f
    (fun obs_names line =>
       if contains (marker_char marker) line
       then
         let raw := split (marker_char marker) (strip line) in
         for_each (evens raw)
           (fun obs_names item =>
              names <- parse_ins_string item ;; Ok (obs_names ++ names))
           obs_names
       else
         names <- parse_ins_string (strip line) ;; Ok (obs_names ++ names))
    obs_names.

Definition parse_ins_file (fs : filesystem) (ins_file : string)
    : result (list string) :=
  f <- open fs ins_file ;;
  let (line, f') := readline f in
  let header := split_ws (strip line) in
  h0 <- getitem header 0 ;;
  assert (mem (lower h0) ["pif"; "jif"])
    else ("instruction file error: must start with [pif,jif], not:" ++ h0)%string ;;
  marker <- getitem header 1 ;;
  assert (String.length marker =? 1)
    else ("instruction file error: marker must be a single character, not:"
            ++ marker)%string ;;
  obs_names <- ins_lines marker f' [] ;;
  Ok (map (fun on => lower (strip on)) obs_names).

(** The marker pairs in the words of the specification: the matching
    closing marker of ["["] is ["]"], of ["("] is [")"], of ["!"] is ["!"];
    no other character opens a token. *)
Definition closing_marker (c : ascii) : option ascii :=
  if Ascii.eqb c "[" then Some "]"%char
  else if Ascii.eqb c "(" then Some ")"%char
  else if Ascii.eqb c "!" then Some "!"%char
  else None.

(** No character of [s] is an opening marker. *)
Fixpoint no_opening (s : string) : bool :=
  match s with
  | "" => true
  | String c r =>
      match closing_marker c with
      | Some _ => false
      | None => no_opening r
      end
  end.

(** A token is dropped when it is "dum", whatever its case. *)
Definition keep_token (tok : string) : list string :=
  if String.eqb (lower tok) "dum" then [] else [tok].

End pst_utils.

(** ** numpy arrays and the pyemu collaborators of [MonteCarlo] *)

Module np.

(** A float64 value as far as the arithmetic of [mc.py] goes: an exact
    rational, or one of the IEEE values a division by zero produces.
    Rounding is not modelled. *)
Inductive float : Type :=
| NInf
| Fin (q : Q)
| PInf
| NaN.

Definition Qlt_bool (a b : Q) : bool := negb (Qle_bool b a).

(** [x / m] on finite operands *)
Definition fdiv (x m : Q) : float :=
  if Qeq_bool m 0 then
    if Qeq_bool x 0 then NaN
    else if Qlt_bool 0 x then PInf else NInf
  else Fin (x / m)%Q.

(** The order numpy sorts and searches by: [a < b], with NaN after
    every other value. *)
Definition less (a b : float) : bool :=
  match a, b with
  | NaN, _ => false
  | _, NaN => true
  | _, NInf => false
  | NInf, _ => true
  | PInf, _ => false
  | Fin _, PInf => true
  | Fin x, Fin y => Qlt_bool x y
  end.

(** IEEE [a >= b] and [a < b]: false as soon as one side is NaN *)
Definition ge (a b : float) : bool :=
  match a, b with
  | NaN, _ | _, NaN => false
  | _, _ => negb (less a b)
  end.

Definition lt (a b : float) : bool :=
  match a, b with
  | NaN, _ | _, NaN => false
  | _, _ => less a b
  end.

(** [a.max()] of an array of finite values; numpy raises [ValueError]
    on an empty array. *)
Definition max (a : list Q) : result Q :=
  match a with
  | [] => Raise ValueError
  | x :: r => Ok (fold_left (fun m y => if Qlt_bool m y then y else m) r x)
  end.

(** [np.sort(a)]: the ascending arrangement of [a] *)
Fixpoint insert (x : float) (l : list float) : list float :=
  match l with
  | [] => [x]
  | y :: r => if less y x then y :: insert x r else x :: y :: r
  end.

Definition sort (a : list float) : list float :=
  fold_right insert [] a.

(** [np.searchsorted(a, v)] with the default [side='left']: binary search
    for the first position whose element is not less than [v]. *)
Fixpoint bisect_left (fuel : nat) (a : list float) (v : float) (lo hi : nat)
    : nat :=
  match fuel with
  | 0 => lo
  | S fuel' =>
      if lo <? hi then
        let mid := lo + (hi - lo) / 2 in
        if less (nth mid a NaN) v
        then bisect_left fuel' a v (mid + 1) hi
        else bisect_left fuel' a v lo mid
      else lo
  end.

Definition searchsorted (a : list float) (v : float) : nat :=
  bisect_left (List.length a) a v 0 (List.length a).

(** A two-dimensional array: its shape and its rows. *)
Record ndarray : Type := {
  nrows : nat;
  ncols : nat;
  rows : list (list Q)
}.

Definition item (a : ndarray) (i j : nat) : Q :=
  nth j (nth i (rows a) []) 0%Q.

(** The start of the Python slice [k:] on a sequence of length [n] *)
Definition slice_start (k : Z) (n : nat) : nat :=
  if (k <? 0)%Z then Z.to_nat (Z.of_nat n + k) else Nat.min (Z.to_nat k) n.

(** Ascending in numpy's order: no element is less than an earlier one. *)
Inductive ascending : list float -> Prop :=
| ascending_nil : ascending []
| ascending_cons (a : float) (l : list float) :
    Forall (fun b => less b a = false) l -> ascending l -> ascending (a :: l).

(** The number of elements of [l] that satisfy [p] *)
Definition count (p : float -> bool) (l : list float) : nat :=
  List.length (filter p l).

End np.

Module mat.
Import np.

(** A pyemu [Matrix]: the array [x] with its row and column names. *)
Record Matrix : Type := {
  x : ndarray;
  row_names : list string;
  col_names : list string
}.

Definition shape (m : Matrix) : nat * nat := (nrows (x m), ncols (x m)).

(** Modelled from the spec: [Matrix.__getitem__] of pyemu/mat.py for the
    index [[:, k:]], "select the right-singular-vector columns with
    index >= nsing". *)
Definition cols_from (m : Matrix) (k : Z) : Matrix :=
  let j := slice_start k (ncols (x m)) in
  {| x := {| nrows := nrows (x m);
             ncols := ncols (x m) - j;
             rows := map (skipn j) (rows (x m)) |};
     row_names := row_names m;
     col_names := skipn j (col_names m) |}.

(** Modelled from the spec: [Matrix.T] of pyemu/mat.py, the transpose. *)
Definition T (m : Matrix) : Matrix :=
  {| x := {| nrows := ncols (x m);
             ncols := nrows (x m);
             rows := map (fun j => map (fun i => item (x m) i j)
                                       (seq 0 (nrows (x m))))
                         (seq 0 (ncols (x m))) |};
     row_names := col_names m;
     col_names := row_names m |}.

(** Modelled from the spec: [Matrix.__mul__] of pyemu/mat.py on two
    matrices, the matrix product "V2 . V2^T"; the result is labelled by
    the rows of the left and the columns of the right operand. *)
Definition mul (a b : Matrix) : result Matrix :=
  if ncols (x a) =? nrows (x b) then
    Ok {| x := {| nrows := nrows (x a);
                  ncols := ncols (x b);
                  rows :=
                    map (fun i =>
                           map (fun j =>
                                  fold_left
                                    (fun acc k =>
                                       (acc + item (x a) i k * item (x b) k j)%Q)
                                    (seq 0 (ncols (x a))) 0%Q)
                               (seq 0 (ncols (x b))))
                        (seq 0 (nrows (x a))) |};
          row_names := row_names a;
          col_names := col_names b |}
  else Raise (AssertionError "matrices are not aligned").

(** The zero matrix labelled by [names] on both sides *)
Definition zeros (n : nat) (names : list string) : Matrix :=
  {| x := {| nrows := n; ncols := n; rows := repeat (repeat 0%Q n) n |};
     row_names := names;
     col_names := names |}.

End mat.

Module pst.
Import pystr.

(** A column of a pandas frame indexed by name: the rows in file order,
    each with its index label and its value. *)
Definition Series : Type := list (string * Q).

Fixpoint series_get (s : Series) (k : string) : option Q :=
  match s with
  | [] => None
  | (k', v) :: r => if String.eqb k' k then Some v else series_get r k
  end.

Definition labels (s : Series) : list string := map fst s.

(** [frame.loc[value.index, col] = value]: every row of [frame] whose
    label is in the index of [value] takes the value of that label.
    pandas refuses labels that [frame] does not have, here with a
    [KeyError]; the properties below only rest on assignments whose labels
    the frame has. *)
Definition loc_set (frame : Series) (value : Series) : result Series :=
  if forallb (fun k => mem k (labels frame)) (labels value)
  then Ok (map (fun row : string * Q =>
                  match series_get value (fst row) with
                  | Some v => (fst row, v)
                  | None => row
                  end)
               frame)
  else Raise KeyError.

(** The control file, reduced to what [MonteCarlo] reads and writes:
    [parameter_data] indexed by [parnme] with the column [parval1], and
    [observation_data] indexed by [obsnme] with the column [obsval]. *)
Record Pst : Type := {
  parameter_data : Series;
  observation_data : Series
}.

Definition par_names (p : Pst) : list string := labels (parameter_data p).
Definition obs_names (p : Pst) : list string := labels (observation_data p).

(** Modelled from the spec: [Pst.get] of pyemu/pst, "a copy of the pest
    control file" restricted to the given names. *)
Definition get (p : Pst) (par_names obs_names : list string) : Pst :=
  {| parameter_data :=
       filter (fun row => mem (fst row) par_names) (parameter_data p);
     observation_data :=
       filter (fun row => mem (fst row) obs_names) (observation_data p) |}.

End pst.

Module en.
Import pystr pst.

(** A realization ensemble: a frame with one row per realization and one
    column per name, and the flag that tells whether the values are stored
    in log space. *)
Record Ensemble : Type := {
  columns : list string;
  values : list (list Q);
  islog : bool
}.

Definition shape (e : Ensemble) : nat * nat :=
  (List.length (values e), List.length (columns e)).

(** [e.iloc[i, :]]: realization [i] as a series indexed by the columns *)
Definition iloc (e : Ensemble) (i : nat) : result Series :=
  match nth_error (values e) i with
  | Some row => Ok (combine (columns e) row)
  | None => Raise IndexError
  end.

(** Modelled from the spec: the constructors [ParameterEnsemble(pst=pst)]
    and [ObservationEnsemble(pst=pst)] of pyemu/en.py, "constructed empty
    (zero realizations)", with the names of the control file as columns. *)
Definition ParameterEnsemble (p : Pst) : Ensemble :=
  {| columns := par_names p; values := []; islog := false |}.

Definition ObservationEnsemble (p : Pst) : Ensemble :=
  {| columns := obs_names p; values := []; islog := false |}.

(** Modelled from the spec: [ParameterEnsemble._back_transform(inplace=False)]
    of pyemu/en.py, "back-transforming from log space": a new ensemble of
    the same shape whose values are the inverse log-transform [inv_log] of
    the stored ones, column by column. *)
Definition _back_transform (inv_log : string -> Q -> Q) (e : Ensemble)
    : Ensemble :=
  {| columns := columns e;
     values := map (fun row =>
                      map (fun cv : string * Q => inv_log (fst cv) (snd cv))
                          (combine (columns e) row))
                   (values e);
     islog := false |}.

End en.

(** ** pyemu/mc.py *)

Module mc.
Import pystr np mat pst en.

(** The decomposition [self.xtqx] that the base class [LinearAnalysis]
    provides: its shape, the singular values [xtqx.s.x[:,0]] and the
    right singular vectors [xtqx.v]. *)
Record XtQX : Type := {
  xtqx_shape : nat * nat;
  s_x : list Q;
  v : Matrix
}.

Record MonteCarlo : Type := {
  mc_pst : Pst;
  xtqx : XtQX;
  parensemble : Ensemble;
  obsensemble : Ensemble
}.

(** What the calls of a method leave behind: the control files written by
    [pst.write], in the order of the calls, and the phrases passed to
    [self.log]. *)
Record World : Type := {
  files : list (string * Pst);
  logged : list string
}.

Definition M (A : Type) : Type := World -> result A * World.

Definition ret {A : Type} (a : A) : M A := fun w => (Ok a, w).

Definition bindM {A B : Type} (m : M A) (k : A -> M B) : M B :=
  fun w =>
    match m w with
    | (Ok a, w') => k a w'
    | (Raise e, w') => (Raise e, w')
    | (OutOfFuel, w') => (OutOfFuel, w')
    end.

Definition lift {A : Type} (r : result A) : M A := fun w => (r, w).

Declare Scope mc_scope.
Delimit Scope mc_scope with mc.
Notation "x <- m ;; k" := (bindM m (fun x => k))
  (at level 61, m at next level, right associativity) : mc_scope.
Notation "m ;; k" := (bindM m (fun _ => k))
  (at level 61, right associativity) : mc_scope.

Definition log (phrase : string) : M unit :=
  fun w => (Ok tt, {| files := files w; logged := logged w ++ [phrase] |}).

(** [p.write(name)] *)
Definition write (p : Pst) (name : string) : M unit :=
  fun w => (Ok tt, {| files := files w ++ [(name, p)]; logged := logged w |}).

(** [for i in range(n): st = body(st, i)] *)
Fixpoint for_in {St : Type} (l : list nat) (body : St -> nat -> M St) (st : St)
    : M St :=
  match l with
  | [] => ret st
  | i :: r => bindM (body st i) (for_in r body)
  end.

Definition for_range {St : Type} (n : nat) (body : St -> nat -> M St) (st : St)
    : M St :=
  for_in (seq 0 n) body st.

Local Open Scope mc_scope.

(** [MonteCarlo.__init__]: the control file is required, and both
    ensembles start without realizations. *)
Definition init (p : option Pst) (decomposition : XtQX) : result MonteCarlo :=
  match p with
  | None => Raise (AssertionError "monte carlo requires a pest control file")
  | Some p =>
      Ok {| mc_pst := p;
            xtqx := decomposition;
            parensemble := ParameterEnsemble p;
            obsensemble := ObservationEnsemble p |}
  end.

Definition num_reals (self : MonteCarlo) : nat :=
  fst (en.shape (parensemble self)).

Definition default_epsilon : Q := (1 # 1000000)%Q.

Definition get_nsing (self : MonteCarlo) (epsilon : Q) : result Z :=
  bind (np.max (s_x (xtqx self))) (fun m =>
  Ok (Z.of_nat (fst (xtqx_shape (xtqx self)))
      - Z.of_nat (searchsorted
                    (sort (map (fun x => fdiv x m) (s_x (xtqx self))))
                    (Fin epsilon)))%Z).

(** ["{0}".format(n)] for an integer *)
Definition format_int (n : Z) : string :=
  NilEmpty.string_of_int (Z.to_int n).

Definition get_null_proj (self : MonteCarlo) (nsing : option Z) : M Matrix :=
  nsing <- match nsing with
           | None => lift (get_nsing self default_epsilon)
           | Some n => ret n
           end ;;
  log ("forming null space projection matrix with "
         ++ format_int nsing ++ " singular components")%string ;;
  v2_proj <- lift (mul (cols_from (v (xtqx self)) nsing)
                       (T (cols_from (v (xtqx self)) nsing))) ;;
  log ("forming null space projection matrix with "
         ++ format_int nsing ++ " singular components")%string ;;
  ret v2_proj.

Section write_psts.

(** The inverse log-transform of the ensemble collaborator, per column. *)
Variable inv_log : string -> Q -> Q.

(** The body of [for i in range(self.num_reals)] in [write_psts]; the
    loop works on the one copy [p] of the control file. *)
Definition write_pst (self : MonteCarlo) (prefix : string) (par_en : Ensemble)
    (p : Pst) (i : nat) : M Pst :=
  let pst_name := (prefix ++ (format_d i ++ ".pst"))%string in
  log ("writing realized pest control file " ++ pst_name)%string ;;
  row <- lift (iloc par_en i) ;;
  parameter_data' <- lift (loc_set (parameter_data p) row) ;;
  let p := {| parameter_data := parameter_data';
              observation_data := observation_data p |} in
  p <- (if fst (en.shape (obsensemble self)) =? num_reals self
        then
          row <- lift (iloc (obsensemble self) i) ;;
          observation_data' <- lift (loc_set (observation_data p) row) ;;
          ret {| parameter_data := parameter_data p;
                 observation_data := observation_data' |}
        else ret p) ;;
  write p pst_name ;;
  log ("writing realized pest control file " ++ pst_name)%string ;;
  ret p.

Definition write_psts (self : MonteCarlo) (prefix : string) : M unit :=
  log "writing realized pest control files" ;;
  let p := pst.get (mc_pst self) (par_names (mc_pst self))
                   (obs_names (mc_pst self)) in
  let par_en :=
    if islog (parensemble self)
    then _back_transform inv_log (parensemble self)
    else parensemble self in
  _ <- for_range (num_reals self) (write_pst self prefix par_en) p ;;
  log "writing realized pest control files".

End write_psts.

(** In the words of the specification of [get_nsing]: the singular values
    normalized by their maximum [m], and the number of them whose
    normalized ratio is >= [epsilon]. *)
Definition ratios (s : list Q) (m : Q) : list float :=
  map (fun x => fdiv x m) s.

Definition count_ge (s : list Q) (m epsilon : Q) : nat :=
  List.length (filter (fun r => ge r (Fin epsilon)) (ratios s m)).

(** What one turn of the loop of [write_psts] makes of the control file
    [p]: the assignments of [write_pst] without its logging and writing. *)
Definition realize (self : MonteCarlo) (par_en : Ensemble) (p : Pst) (i : nat)
    : result Pst :=
  bind (iloc par_en i) (fun row =>
  bind (loc_set (parameter_data p) row) (fun parameter_data' =>
  if fst (en.shape (obsensemble self)) =? num_reals self
  then
    bind (iloc (obsensemble self) i) (fun row =>
    bind (loc_set (observation_data p) row) (fun observation_data' =>
    Ok {| parameter_data := parameter_data';
          observation_data := observation_data' |}))
  else
    Ok {| parameter_data := parameter_data';
          observation_data := observation_data p |})).

(** What holds of the copy of the control file throughout the loop of
    [write_psts]: its labels are those of the control file of the engine,
    and so are its observation values unless they are overwritten. *)
Definition kept (self : MonteCarlo) (p : Pst) : Prop :=
  labels (parameter_data p) = labels (parameter_data (mc_pst self)) /\
  labels (observation_data p) = labels (observation_data (mc_pst self)) /\
  (fst (en.shape (obsensemble self)) <> num_reals self ->
   observation_data p = observation_data (mc_pst self)).

(** The phrase logged around the writing of realization [i] *)
Definition writing (prefix : string) (i : nat) : string :=
  ("writing realized pest control file " ++ (prefix ++ (format_d i ++ ".pst")))%string.

(** The name of the control file of realization [i]: [prefix], [i] in
    decimal, [".pst"]. *)
Definition pst_name (prefix : string) (i : nat) : string :=
  (prefix ++ format_d i ++ ".pst")%string.

(** An ensemble that belongs to a frame of the control file, as the
    constructors build them: its columns are distinct names of the frame. *)
Definition consistent (e : Ensemble) (frame : Series) : Prop :=
  NoDup (columns e) /\ incl (columns e) (labels frame).

(** The value of realization [i] of [e] in the column named [c] *)
Definition realized (e : Ensemble) (i : nat) (c : string) (val : Q) : Prop :=
  exists row j,
    nth_error (values e) i = Some row /\
    nth_error (columns e) j = Some c /\
    nth_error row j = Some val.

(** The control file [p] holds realization [i]: its parameter values are
    those of row [i] of the parameter ensemble, taken out of log space by
    [inv_log] when the ensemble is stored in log space; its observation
    values are those of row [i] of the observation ensemble when the two
    ensembles have the same number of realizations, and are those of the
    control file of the engine otherwise. *)
Definition realizes (inv_log : string -> Q -> Q) (self : MonteCarlo)
    (p : Pst) (i : nat) : Prop :=
  (forall c val,
      realized (parensemble self) i c val ->
      series_get (parameter_data p) c =
      Some (if islog (parensemble self) then inv_log c val else val)) /\
  (fst (en.shape (obsensemble self)) = num_reals self ->
   forall c val,
     realized (obsensemble self) i c val ->
     series_get (observation_data p) c = Some val) /\
  (fst (en.shape (obsensemble self)) <> num_reals self ->
   observation_data p = observation_data (mc_pst self)).

End mc.

(** ** Concrete control files, decompositions and engines *)

Module examples.
Import pystr np mat pst en mc.

Definition line (s : string) : string := (s ++ nl)%string.

Definition V : Matrix :=
  {| x := {| nrows := 2; ncols := 2; rows := [[1; 2]; [3; 4]]%Q |};
     row_names := ["k1"; "k2"];
     col_names := ["sing_vec1"; "sing_vec2"] |}.

Definition decomposition (s : list Q) : XtQX :=
  {| xtqx_shape := (List.length s, List.length s); s_x := s; v := V |}.

Definition control : Pst :=
  {| parameter_data := [("k1", 1); ("k2", 2); ("k3", 3)]%Q;
     observation_data := [("h1", 10); ("h2", 20)]%Q |}.

(** An engine as [MonteCarlo.__init__] leaves it, for a spectrum [s]. *)
Definition engine (s : list Q) : MonteCarlo :=
  {| mc_pst := control;
     xtqx := decomposition s;
     parensemble := ParameterEnsemble control;
     obsensemble := ObservationEnsemble control |}.

(** An engine after a draw of two realizations, stored in log space. *)
Definition drawn : MonteCarlo :=
  {| mc_pst := control;
     xtqx := decomposition [3; 1]%Q;
     parensemble := {| columns := ["k1"; "k2"; "k3"];
                       values := [[0; 1; 2]; [3; 4; 5]]%Q;
                       islog := true |};
     obsensemble := {| columns := ["h1"; "h2"];
                       values := [[11; 21]; [12; 22]]%Q;
                       islog := false |} |}.

Definition world0 : World := {| files := []; logged := [] |}.

(** A stand-in for the inverse log-transform: doubling. *)
Definition twice (_ : string) (q : Q) : Q := (2 * q)%Q.

End examples.

(** ** Properties of names, tokens and header lines, for the statements
    about pst_utils.py *)

Module pst_utils_spec.
Import pystr pst_utils.

(** What holds of the names collected by the loop: none is "dum" in any
    case, and each is a slice of the line. *)
Definition token_of (s tok : string) : Prop :=
  String.eqb (lower tok) "dum" = false /\ exists i j, tok = slice i j s.

(** A header line of a template file as [parse_tpl_file] accepts it: two
    tokens, ptf or jtf in any case, and a marker of one character. *)
Definition tpl_header (line : string) : Prop :=
  exists h0 marker,
    split_ws (strip line) = [h0; marker] /\
    mem (lower h0) ["ptf"; "jtf"] = true /\
    String.length marker = 1.

(** The fields of a template line: the text between the first and the
    second marker, between the third and the fourth, and so on. *)
Definition tpl_fields (marker : string) (line : string) : list string :=
  odds (split (marker_char marker) (strip line)).

(** The names that one line of an instruction file contributes *)
Definition ins_line (marker : string) (line : string) (names : list string)
    : Prop :=
  if contains (marker_char marker) line
  then exists tokens : list (list string),
         Forall2 (fun item toks => parse_ins_string item = Ok toks)
                 (evens (split (marker_char marker) (strip line))) tokens /\
         names = concat tokens
  else parse_ins_string (strip line) = Ok names.

End pst_utils_spec.

(** ** More of pyemu/pst/pst_utils.py: converters, formatters and the
    readers of record and residual files *)

Module pst_formats.
Import pystr.

(** A cell of a frame that holds a name, or [np.NaN]. *)
Inductive cell : Type :=
| Str (s : string)
| NaN_cell.

Definition str_con (item : string) : cell :=
  if String.length item =? 0 then NaN_cell else Str (strip (lower item)).

Fixpoint spaces (n : nat) : string :=
  match n with
  | 0 => ""
  | S n' => String " " (spaces n')
  end.

(** ["{0:>ns}".format(s)]: [s] pushed to the right of a field of [n]
    characters; a longer [s] is not cut. *)
Definition rjust (n : nat) (s : string) : string :=
  (spaces (n - String.length s) ++ s)%string.

(** [SFMT] on a name: [item.decode()] for bytes and [str(item)] otherwise
    are the name itself. *)
Definition SFMT (item : string) : string := rjust 20 item.

(** The normal form of the names the parsers return *)
Definition normalized (name : string) : Prop :=
  lower name = name /\ strip name = name.

(** The text does not start with a white-space character. *)
Definition no_lead (s : string) : Prop :=
  match s with
  | "" => True
  | String c _ => is_space c = false
  end.

End pst_formats.

Module recfile.
Import pystr.
Local Open Scope py_scope.

(** [needle in s] for strings: [needle] starts at some position of [s]. *)
Fixpoint startswith (needle s : string) : bool :=
  match needle, s with
  | "", _ => true
  | String _ _, "" => false
  | String a n', String b s' => Ascii.eqb a b && startswith n' s'
  end.

Fixpoint occurs_in (needle s : string) : bool :=
  startswith needle s ||
  match s with
  | "" => false
  | String _ s' => occurs_in needle s'
  end.

(** [l[-k]] for [k >= 1] *)
Definition getitem_neg {A : Type} (l : list A) (k : nat) : result A :=
  getitem (rev l) (k - 1).

(** [d[k] = v] on a dict, as the list of its items in insertion order *)
Fixpoint dict_set {K V : Type} (eqb : K -> K -> bool) (d : list (K * V))
    (k : K) (v : V) : list (K * V) :=
  match d with
  | [] => [(k, v)]
  | (k', v') :: r =>
      if eqb k' k then (k', v) :: r else (k', v') :: dict_set eqb r k v
  end.

Fixpoint dict_get {K V : Type} (eqb : K -> K -> bool) (d : list (K * V))
    (k : K) : option V :=
  match d with
  | [] => None
  | (k', v') :: r => if eqb k' k then Some v' else dict_get eqb r k
  end.

(** [s.replace(q, '')] for the double quote character [q] *)
Definition quote : ascii := ascii_of_nat 34.

Fixpoint remove_quotes (s : string) : string :=
  match s with
  | "" => ""
  | String c r =>
      if Ascii.eqb c quote then remove_quotes r else String c (remove_quotes r)
  end.

Section get_phi_comps_from_recfile.

(** [float(s)] on a token: the number, or nothing where Python raises
    [ValueError]. *)
Variable float : string -> option Q.

Definition contributions : Type := list (string * Q).

Definition starts_phi (line : string) : bool :=
  occurs_in "starting phi for this iteration" (lower line)
  || occurs_in "final phi" (lower line).

Definition contributes (line : string) : bool :=
  occurs_in "contribution to phi" (lower line).

(** The two nested [while True] loops of [get_phi_comps_from_recfile] over
    the lines that [f.readline()] has yet to return: [inside] is [None] in
    the outer loop and the dict [contributions] in the inner loop. At the
    end of the file [readline] returns the empty string, which leaves the
    inner loop and then the outer one. *)
Fixpoint phi_lines (f : file) (inside : option contributions) (iiter : nat)
    (iters : list (nat * contributions))
    : result (list (nat * contributions)) :=
  match f with
  | [] => Ok iters
  | line :: f' =>
      if String.eqb line "" then Ok iters
      else
        match inside with
        | None =>
            if starts_phi line
            then phi_lines f' (Some []) iiter iters
            else phi_lines f' None iiter iters
        | Some contributions =>
            if negb (contributes line)
            then phi_lines f' None (iiter + 1)
                   (dict_set Nat.eqb iters iiter contributions)
            else
              let raw := split_ws (strip line) in
              last <- getitem_neg raw 1 ;;
              match float last with
              | None => Raise ValueError
              | Some val =>
                  g <- getitem_neg raw 3 ;;
                  let group := remove_quotes (lower g) in
                  phi_lines f' (Some (dict_set String.eqb contributions group val))
                    iiter iters
              end
        end
  end.

Definition get_phi_comps_from_recfile (fs : filesystem) (recfile : string)
    : result (list (nat * contributions)) :=
  f <- open fs recfile ;;
  phi_lines f None 1 [].

End get_phi_comps_from_recfile.

Section read_resfile.

(** The frame type of pandas and [pd.read_csv(f, header=None, names=header,
    sep="\s+", converters=converters)] on the lines left in [f], taken as
    given. *)
Variable DataFrame : Type.
Variable read_csv : file -> list string -> result DataFrame.

(** The [while True] loop of [read_resfile]: the header and the lines
    after it. *)
Fixpoint find_header (resfile : string) (f : file)
    : result (list string * file) :=
  match f with
  | [] =>
      Raise (Exception ("Pst.get_residuals: EOF before finding "
                          ++ "header in resfile: " ++ resfile)%string)
  | line :: f' =>
      if String.eqb line ""
      then Raise (Exception ("Pst.get_residuals: EOF before finding "
                               ++ "header in resfile: " ++ resfile)%string)
      else if occurs_in "name" (lower line)
      then Ok (split_ws (strip (lower line)), f')
      else find_header resfile f'
  end.

(** [os.path.exists(path)] *)
Definition exists_ (fs : filesystem) (path : string) : bool :=
  match open fs path with
  | Ok _ => true
  | _ => false
  end.

Definition read_resfile (fs : filesystem) (resfile : string)
    : result DataFrame :=
  assert (exists_ fs resfile)
    else ("read_resfile() error: resfile " ++ resfile ++ " not found")%string ;;
  f <- open fs resfile ;;
  hf <- find_header resfile f ;;
  read_csv (snd hf) (fst hf).

End read_resfile.

End recfile.

(** ** Properties of spectra and matrices, for the statements about mc.py *)

Module mc_spec.
Import np mat pst en mc.

(** The singular values come largest first. *)
Definition descending (s : list Q) : Prop :=
  forall i j, i <= j -> j < List.length s -> (nth j s 0 <= nth i s 0)%Q.

(** The phrase [get_null_proj] logs before and after forming the matrix *)
Definition forming (nsing : Z) : string :=
  ("forming null space projection matrix with "
     ++ format_int nsing ++ " singular components")%string.

(** The array has [n] rows of [m] entries, as its shape says. *)
Definition well_shaped (a : ndarray) : Prop :=
  List.length (rows a) = nrows a /\
  Forall (fun r => List.length r = ncols a) (rows a).

(** The world before any call *)
Definition nothing : World := {| files := []; logged := [] |}.

(** What a computation adds to the world [w], given what it adds to the
    world [nothing] *)
Definition extend (w added : World) : World :=
  {| files := files w ++ files added; logged := logged w ++ logged added |}.


(** The control file [q] has the rows of the control file [p] in the same
    order, with the values of [p] in every parameter row that is not among
    [par_columns] and in every observation row that is not among
    [obs_columns]. *)
Definition same_outside (par_columns obs_columns : list string) (p q : Pst)
    : Prop :=
  labels (parameter_data q) = labels (parameter_data p) /\
  labels (observation_data q) = labels (observation_data p) /\
  (forall c, ~ In c par_columns ->
             series_get (parameter_data q) c = series_get (parameter_data p) c) /\
  (forall c, ~ In c obs_columns ->
             series_get (observation_data q) c = series_get (observation_data p) c).

End mc_spec.

(** ** Properties of the lines of a record file *)

Module recfile_spec.
Import pystr recfile.

(** A line of the file that neither ends it (no line of a file is empty)
    nor starts a report of phi. *)
Definition plain_line (line : string) : Prop :=
  line <> "" /\ starts_phi line = false.

(** A line that reports the contribution [val] of [group]: it holds
    "contribution to phi", its last token reads as the number [val], and
    [group] is its third token from the end, lower-cased and without
    double quotes. *)
Definition contribution_line (float : string -> option Q) (line : string)
    (gv : string * Q) : Prop :=
  line <> "" /\ contributes line = true /\
  exists last g,
    getitem_neg (split_ws (strip line)) 1 = Ok last /\
    float last = Some (snd gv) /\
    getitem_neg (split_ws (strip line)) 3 = Ok g /\
    fst gv = remove_quotes (lower g).

(** The dict built from the contributions in the order of the lines *)
Definition dict_of (c : contributions) (gvs : list (string * Q)) : contributions :=
  fold_left (fun d gv => dict_set String.eqb d (fst gv) (snd gv)) gvs c.

(** A line of a residual file before the header: it lacks "name". *)
Definition before_header (line : string) : Prop :=
  line <> "" /\ occurs_in "name" (lower line) = false.

(** A stand-in for [float] on the tokens of the examples: the value of a
    token of decimal digits. *)
Definition float_of_digits (s : string) : option Q :=
  match NilEmpty.uint_of_string s with
  | Some d => Some (inject_Z (Z.of_nat (Nat.of_uint d)))
  | None => None
  end.

(** A report of phi in a record file: lines that start no report, the
    line that starts this one, the lines of the contributions with what
    they report, and the line that ends the report, which is any line
    without "contribution to phi". *)
Record report : Type := {
  rep_before : file;
  rep_header : string;
  rep_block : file;
  rep_values : list (string * Q);
  rep_stop : string
}.

Definition report_lines (r : report) : file :=
  rep_before r ++ rep_header r :: rep_block r ++ [rep_stop r].

Definition report_ok (float : string -> option Q) (r : report) : Prop :=
  Forall plain_line (rep_before r)
  /\ rep_header r <> "" /\ starts_phi (rep_header r) = true
  /\ Forall2 (contribution_line float) (rep_block r) (rep_values r)
  /\ rep_stop r <> "" /\ contributes (rep_stop r) = false.

(** The dict that [get_phi_comps_from_recfile] returns for the reports
    [rs]: they are numbered from [k] in their order. *)
Definition iterations (k : nat) (rs : list report)
    : list (nat * contributions) :=
  combine (seq k (List.length rs))
          (map (fun r => dict_of [] (rep_values r)) rs).

End recfile_spec.

(** ** pyemu/pst/pst_utils.py: [smp_to_ins] *)

Module smp.
Import pystr pst_formats.

(** The date of a pandas timestamp; the time of day plays no part in
    [smp_to_ins]. *)
Record datetime : Type := {
  year : nat;
  month : nat;
  day : nat
}.

(** Two digits, with a leading zero: the [%d] and [%m] of [strftime] *)
Definition two_digits (n : nat) : string :=
  if n <? 10 then ("0" ++ format_d n)%string else format_d n.

(** [x.strftime("%d%m%Y")]; the years of pandas timestamps have four
    digits. *)
Definition strftime_dmY (x : datetime) : string :=
  (two_digits (day x) ++ two_digits (month x) ++ format_d (year x))%string.

(** A row of the frame that [smp_to_dataframe] loads, with the two columns
    that [smp_to_ins] adds. The name is [NaN_cell] where pandas read a
    missing value. *)
Record row : Type := {
  name : cell;
  date : datetime;
  value : Q;
  ins_strings : option string;
  observation_names : option string
}.

(** How [smp_to_ins] ends: with its return value, with an exception of
    [exn], or with the [TypeError] of [None + str]. *)
Inductive outcome (A : Type) : Type :=
| Returns (a : A)
| Raises (e : exn)
| RaisesTypeError.

Arguments Returns {A} a.
Arguments Raises {A} e.
Arguments RaisesTypeError {A}.

(** [df.groupby("name").groups]: for every name of the frame, the positions
    of its rows; rows without a name belong to no group. The groups are
    listed by first occurrence (the order of a dict is not fixed; it only
    decides which group is reported when several have names that are too
    long). *)
Fixpoint positions (nm : string) (df : list row) (i : nat) : list nat :=
  match df with
  | [] => []
  | r :: df' =>
      match name r with
      | Str nm' =>
          if String.eqb nm' nm then i :: positions nm df' (S i)
          else positions nm df' (S i)
      | NaN_cell => positions nm df' (S i)
      end
  end.

Fixpoint group_names (df : list row) (seen : list string) : list string :=
  match df with
  | [] => []
  | r :: df' =>
      match name r with
      | Str nm =>
          if mem nm seen then group_names df' seen
          else nm :: group_names df' (nm :: seen)
      | NaN_cell => group_names df' seen
      end
  end.

Definition groups (df : list row) : list (string * list nat) :=
  map (fun nm => (nm, positions nm df 0)) (group_names df []).

(** [df.loc[idxs, "observation_names"] = onames] and the same for
    ["ins_strings"], row by row *)
Fixpoint set_row (i : nat) (oname ins_str : string) (df : list row)
    : list row :=
  match df, i with
  | [], _ => []
  | r :: df', 0 =>
      {| name := name r; date := date r; value := value r;
         ins_strings := Some ins_str;
         observation_names := Some oname |} :: df'
  | r :: df', S i' => r :: set_row i' oname ins_str df'
  end.

Fixpoint set_rows (idxs : list nat) (onames : list string) (df : list row)
    : list row :=
  match idxs, onames with
  | i :: idxs', oname :: onames' =>
      set_rows idxs' onames'
        (set_row i oname ("l1 w w w  !" ++ oname ++ "!")%string df)
  | _, _ => df
  end.

(** The names of the rows of one group. The positions of a group are rows
    of the frame, so the lookup of a row always finds one. *)
Definition onames_of (nm : string) (idxs : list nat) (df : list row)
    : list string :=
  if String.length nm <=? 11
  then
    map (fun i =>
           match nth_error df i with
           | Some r => (nm ++ "_" ++ strftime_dmY (date r))%string
           | None => (nm ++ "_")%string
           end)
        idxs
  else
    map (fun i => (nm ++ "_" ++ format_d i)%string)
        (seq 0 (List.length idxs)).

(** The body of [for name, idxs in name_groups.items()] *)
Definition name_group (df : list row) (g : string * list nat)
    : outcome (list row) :=
  let onames := onames_of (fst g) (snd g) df in
  if forallb (fun x => String.length x <=? 20) onames
  then Returns (set_rows (snd g) onames df)
  else
    let long_names :=
      filter (fun x => negb (String.length x <=? 20)) onames in
    Raises (Exception
              ("observation names longer than 20 chars:" ++ nl
                 ++ str_list long_names)%string).

(** [for name, idxs in name_groups.items()], up to the first exception *)
Fixpoint name_groups (gs : list (string * list nat)) (df : list row)
    : outcome (list row) :=
  match gs with
  | [] => Returns df
  | g :: gs' =>
      match name_group df g with
      | Returns df' => name_groups gs' df'
      | Raises e => Raises e
      | RaisesTypeError => RaisesTypeError
      end
  end.

(** The lines of a text: each runs up to and with its line feed. *)
Fixpoint lines_from (cur : string) (text : string) : list string :=
  match text with
  | "" => match cur with "" => [] | _ => [cur] end
  | String c r =>
      if Ascii.eqb c (ascii_of_nat 10)
      then (cur ++ nl)%string :: lines_from "" r
      else lines_from (cur ++ String c "")%string r
  end.

Definition lines_of (text : string) : file := lines_from "" text.

(** The calls [f.write(ins_str + "\n")] over the column ["ins_strings"]:
    the text written, and whether a row without an instruction stopped
    the writing. *)
Fixpoint write_ins (df : list row) (text : string) : string * bool :=
  match df with
  | [] => (text, true)
  | r :: df' =>
      match ins_strings r with
      | Some ins_str => write_ins df' (text ++ ins_str ++ nl)%string
      | None => (text, false)
      end
  end.

Section smp_to_ins.

(** [smp_to_dataframe]: the frame that pandas loads from the file, or its
    exception. *)
Variable smp_to_dataframe : filesystem -> string -> outcome (list row).

Definition smp_to_ins (fs : filesystem) (smp_filename : string)
    (ins_filename : option string) : filesystem * outcome (list row) :=
  let ins_filename :=
    match ins_filename with
    | None => (smp_filename ++ ".ins")%string
    | Some n => n
    end in
  match smp_to_dataframe fs smp_filename with
  | Returns df =>
      let df :=
        map (fun r => {| name := name r; date := date r; value := value r;
                         ins_strings := None;
                         observation_names := None |}) df in
      match name_groups (groups df) df with
      | Returns df =>
          let (text, done) := write_ins df ("pif ~" ++ nl)%string in
          ((ins_filename, lines_of text) :: fs,
           if done then Returns df else RaisesTypeError)
      | Raises e => (fs, Raises e)
      | RaisesTypeError => (fs, RaisesTypeError)
      end
  | Raises e => (fs, Raises e)
  | RaisesTypeError => (fs, RaisesTypeError)
  end.

End smp_to_ins.

(** A name that can stand in an instruction line: it holds no ["!"], no
    ["~"] and no line feed. *)
Definition plain_char (c : ascii) : bool :=
  negb (Ascii.eqb c "!") && negb (Ascii.eqb c "~")
  && negb (Ascii.eqb c (ascii_of_nat 10)).

Fixpoint plain (s : string) : bool :=
  match s with
  | "" => true
  | String c r => plain_char c && plain r
  end.

(** A text of decimal digits *)
Definition digit (c : ascii) : bool :=
  (48 <=? nat_of_ascii c) && (nat_of_ascii c <=? 57).

Fixpoint digits (s : string) : bool :=
  match s with
  | "" => true
  | String c r => digit c && digits r
  end.

(** The instruction line of an observation *)
Definition ins_string (oname : string) : string :=
  ("l1 w w w  !" ++ oname ++ "!")%string.

(** A row that [smp_to_ins] has named: the observation name is the name of
    the site, an underscore and digits, it has at most 20 characters, and
    the instruction reads that name. *)
Definition named (r : row) (oname : string) : Prop :=
  exists nm sfx,
    name r = Str nm /\ digits sfx = true /\
    oname = (nm ++ "_" ++ sfx)%string /\
    String.length oname <= 20 /\
    observation_names r = Some oname /\
    ins_strings r = Some (ins_string oname).

(** A row on the way: not yet named, or named. *)
Definition row_ok (r : row) : Prop :=
  (ins_strings r = None /\ observation_names r = None)
  \/ exists oname, named r oname.

(** The names of one group, paired with the rows they go to *)
Definition group_ok (nm : string) (names : list cell) (i : nat)
    (oname : string) : Prop :=
  nth_error names i = Some (Str nm) /\
  String.length oname <= 20 /\
  exists sfx, digits sfx = true /\ oname = (nm ++ "_" ++ sfx)%string.

(** The text made of the given pieces, one after the other *)
Fixpoint text_of (pieces : list string) : string :=
  match pieces with
  | [] => ""
  | p :: rest => (p ++ text_of rest)%string
  end.

(** The instruction file that [smp_to_ins] writes when [ins_filename] is
    left out *)
Definition ins_path (smp_filename : string) (ins_filename : option string)
    : string :=
  match ins_filename with
  | None => (smp_filename ++ ".ins")%string
  | Some n => n
  end.

Definition plain_names (df : list row) : Prop :=
  Forall (fun r => match name r with
                   | Str nm => plain nm = true
                   | NaN_cell => True
                   end) df.

End smp.

(** ** More concrete files and frames *)

Module examples_more.
Import pystr pst_formats recfile recfile_spec examples.

Definition tpl_fs : filesystem :=
  [("model.tpl", [line "ptf #"; line "k = #K1  # #k2#"; line "#k2#"])].

Definition ins_fs : filesystem :=
  [("model.ins", [line "pif ~"; line "l1 ~,~ !h1!"; line "l1 w (H2) !dum!"])].

Definition bad_ins_fs : filesystem :=
  [("model.ins", [line "pif ~"; line "l1 !h1!"; line "l1 !h2"; line "l1"])].

(** A record file with one report of phi that a further line ends *)
Definition rec_lines : file :=
  [line "pest run record";
   line "  Starting phi for this iteration: 12";
   line "  Contribution to phi from observation group heads = 7";
   line "  Contribution to phi from observation group flows = 5";
   line "";
   line "optimisation complete"].

Definition rec_fs : filesystem := [("model.rec", rec_lines)].

Definition res_fs : filesystem :=
  [("model.res", [line "residuals of the run";
                  line " Name  Group  Measured  Modelled";
                  line " h1    heads  1.0       2.0"])].

(** Two samples of one site and one of a site with a long name *)
Definition samples : list smp.row :=
  [ {| smp.name := Str "well1";
       smp.date := {| smp.year := 2001; smp.month := 2; smp.day := 3 |};
       smp.value := 1%Q;
       smp.ins_strings := None; smp.observation_names := None |};
    {| smp.name := Str "a_long_site_name";
       smp.date := {| smp.year := 2001; smp.month := 2; smp.day := 3 |};
       smp.value := 2%Q;
       smp.ins_strings := None; smp.observation_names := None |};
    {| smp.name := Str "well1";
       smp.date := {| smp.year := 2001; smp.month := 12; smp.day := 24 |};
       smp.value := 3%Q;
       smp.ins_strings := None; smp.observation_names := None |} ].

Definition load_samples (_ : filesystem) (_ : string)
    : smp.outcome (list smp.row) :=
  smp.Returns samples.

(** The frame that [smp_to_ins] returns for these samples, and the file
    system it leaves *)
Definition named_samples : list smp.row :=
  match snd (smp.smp_to_ins load_samples [] "obs.smp" None) with
  | smp.Returns df => df
  | _ => []
  end.

Definition smp_fs : filesystem :=
  fst (smp.smp_to_ins load_samples [] "obs.smp" None).

(** A record file that ends inside its only report of phi *)
Definition cut_fs : filesystem :=
  [("cut.rec", [line "Final phi";
                line "contribution to phi from group a = 1"])].

(** The report of [rec_lines] *)
Definition rec_report : report :=
  {| rep_before := [line "pest run record"];
     rep_header := line "  Starting phi for this iteration: 12";
     rep_block :=
       [line "  Contribution to phi from observation group heads = 7";
        line "  Contribution to phi from observation group flows = 5"];
     rep_values := [("heads", 7); ("flows", 5)]%Q;
     rep_stop := line "" |}.

(** A residual file without a header *)
Definition headless_fs : filesystem :=
  [("model.res", [line "residuals of the run"; line " h1  heads  1.0"])].

(** A stand-in for [pd.read_csv]: the lines and the column names it is
    given *)
Definition read_csv (f : file) (names : list string)
    : result (file * list string) :=
  Ok (f, names).

(** An engine whose ensemble holds only the first and the last parameter
    of the control file *)
Definition partial : mc.MonteCarlo :=
  {| mc.mc_pst := control;
     mc.xtqx := decomposition [3; 1]%Q;
     mc.parensemble := {| en.columns := ["k1"; "k3"];
                          en.values := [[7; 9]; [17; 19]]%Q;
                          en.islog := false |};
     mc.obsensemble := en.ObservationEnsemble control |}.

End examples_more.

(** * Properties *)

(** ** Strings *)

Module pystr_facts.
Import pystr.

Lemma length_app (a b : string) :
  String.length (a ++ b) = String.length a + String.length b.
Proof. induction a as [|c a IH]; simpl; [reflexivity | now rewrite IH]. Qed.

Lemma get_app_r (a b : string) (i : nat) :
  String.get (String.length a + i) (a ++ b) = String.get i b.
Proof. induction a as [|c a IH]; simpl; [reflexivity | exact IH]. Qed.

Lemma slice_from_app_r (a b : string) (i : nat) :
  slice_from (String.length a + i) (a ++ b) = slice_from i b.
Proof. induction a as [|c a IH]; simpl; [reflexivity | exact IH]. Qed.

Lemma slice_app_r (a b : string) (i j : nat) :
  slice (String.length a + i) (String.length a + j) (a ++ b) = slice i j b.
Proof.
  unfold slice. rewrite slice_from_app_r. f_equal. lia.
Qed.

Lemma slice_to_from (n : nat) (s : string) :
  (slice_to n s ++ slice_from n s)%string = s.
Proof.
  revert s; induction n as [|n IH]; intros [|c s]; simpl; try reflexivity.
  now rewrite IH.
Qed.

Lemma length_slice_to (n : nat) (s : string) :
  n <= String.length s -> String.length (slice_to n s) = n.
Proof.
  revert s; induction n as [|n IH]; intros [|c s]; simpl; intros H;
    try reflexivity; try lia.
  rewrite IH; [reflexivity | lia].
Qed.

Lemma length_slice_from (n : nat) (s : string) :
  String.length (slice_from n s) = String.length s - n.
Proof.
  revert s; induction n as [|n IH]; intros [|c s]; simpl; try reflexivity.
  apply IH.
Qed.

Lemma slice_to_app_l (a b : string) :
  slice_to (String.length a) (a ++ b) = a.
Proof. induction a as [|c a IH]; simpl; [now destruct b | now rewrite IH]. Qed.

Lemma find_lt (c : ascii) (s : string) (j : nat) :
  find c s = Some j -> j < String.length s.
Proof.
  revert j; induction s as [|a s IH]; simpl; intros j H; [discriminate|].
  destruct (Ascii.eqb a c).
  - injection H as <-. lia.
  - destruct (find c s) as [k|]; [|discriminate].
    injection H as <-. specialize (IH k eq_refl). lia.
Qed.

Lemma find_app_first (c : ascii) (a b : string) :
  contains c a = false -> find c (a ++ String c b) = Some (String.length a).
Proof.
  induction a as [|x a IH]; simpl; intros H.
  - now rewrite Ascii.eqb_refl.
  - apply orb_false_iff in H as [Hx Ha]. rewrite Hx, (IH Ha). reflexivity.
Qed.

Lemma find_none (c : ascii) (s : string) :
  contains c s = false -> find c s = None.
Proof.
  induction s as [|x s IH]; simpl; intros H; [reflexivity|].
  apply orb_false_iff in H as [Hx Hs]. now rewrite Hx, (IH Hs).
Qed.

End pystr_facts.

(** ** The scanner [parse_ins_string] *)

Module scanner_facts.
Import pystr pystr_facts pst_utils.

Lemma parse_ins_loop_unfold (fuel : nat) (s : string) (idx : nat)
    (obs_names : list string) :
  parse_ins_loop (S fuel) s idx obs_names =
  if String.length s - 1 <=? idx then Ok obs_names
  else
    match String.get idx s with
    | None => Raise IndexError
    | Some char =>
        match list_index char istart_markers with
        | Some k =>
            match nth_error iend_markers k with
            | None => Raise IndexError
            | Some em =>
                bind (index em (slice_from (idx + 1) s)) (fun j =>
                let eidx := Nat.min (String.length s) (j + idx + 1) in
                let obs_name := slice (idx + 1) eidx s in
                let obs_names' :=
                  if negb (String.eqb (lower obs_name) "dum")
                  then obs_names ++ [obs_name] else obs_names in
                parse_ins_loop fuel s (eidx + 1) obs_names')
            end
        | None => parse_ins_loop fuel s (idx + 1) obs_names
        end
    end.
Proof. reflexivity. Qed.

(** The loop looks at the text from [idx] on only: a prefix that has been
    passed plays no part. *)
Lemma parse_ins_loop_shift (fuel : nat) (pre t : string) :
  forall (i : nat) (acc : list string),
    parse_ins_loop fuel (pre ++ t) (String.length pre + i) acc =
    parse_ins_loop fuel t i acc.
Proof.
  induction fuel as [|fuel IH]; intros i acc; [reflexivity|].
  rewrite !parse_ins_loop_unfold.
  rewrite length_app, get_app_r.
  replace (String.length pre + String.length t - 1 <=? String.length pre + i)
    with (String.length t - 1 <=? i)
    by (destruct (Nat.leb_spec (String.length t - 1) i);
        symmetry; [apply Nat.leb_le | apply Nat.leb_gt]; lia).
  destruct (String.length t - 1 <=? i); [reflexivity|].
  destruct (String.get i t) as [char|]; [|reflexivity].
  destruct (list_index char istart_markers) as [k|].
  - destruct (nth_error iend_markers k) as [em|]; [|reflexivity].
    replace (String.length pre + i + 1) with (String.length pre + (i + 1)) by lia.
    rewrite slice_from_app_r.
    destruct (index em (slice_from (i + 1) t)) as [j| |]; simpl; try reflexivity.
    replace (Nat.min (String.length pre + String.length t)
                     (j + (String.length pre + i) + 1))
      with (String.length pre + Nat.min (String.length t) (j + i + 1)) by lia.
    rewrite slice_app_r.
    replace (String.length pre + Nat.min (String.length t) (j + i + 1) + 1)
      with (String.length pre + (Nat.min (String.length t) (j + i + 1) + 1)) by lia.
    apply IH.
  - replace (String.length pre + i + 1) with (String.length pre + (i + 1)) by lia.
    apply IH.
Qed.

(** The names found so far are only ever extended. *)
Lemma parse_ins_loop_acc (fuel : nat) (s : string) :
  forall (i : nat) (acc : list string),
    parse_ins_loop fuel s i acc =
    res_map (app acc) (parse_ins_loop fuel s i []).
Proof.
  induction fuel as [|fuel IH]; intros i acc; [reflexivity|].
  rewrite !parse_ins_loop_unfold.
  destruct (String.length s - 1 <=? i); [simpl; now rewrite app_nil_r|].
  destruct (String.get i s) as [char|]; [|reflexivity].
  destruct (list_index char istart_markers) as [k|]; [|apply IH].
  destruct (nth_error iend_markers k) as [em|]; [|reflexivity].
  destruct (index em (slice_from (i + 1) s)) as [j| |]; simpl; try reflexivity.
  set (e := Nat.min (String.length s) (j + i + 1)).
  destruct (negb (String.eqb (lower (slice (i + 1) e s)) "dum")).
  - rewrite IH. rewrite (IH _ [_]).
    destruct (parse_ins_loop fuel s (e + 1) []); simpl; try reflexivity.
    now rewrite <- app_assoc.
  - apply IH.
Qed.

(** Every turn of the loop moves [idx] forward, so the loop needs at most
    one turn per character that is left. *)
Lemma parse_ins_loop_fuel (f1 : nat) (s : string) :
  forall (f2 i : nat) (acc : list string),
    String.length s - 1 - i < f1 -> String.length s - 1 - i < f2 ->
    parse_ins_loop f1 s i acc = parse_ins_loop f2 s i acc.
Proof.
  induction f1 as [|f1 IH]; intros f2 i acc H1 H2; [lia|].
  destruct f2 as [|f2]; [lia|].
  rewrite !parse_ins_loop_unfold.
  destruct (Nat.leb_spec (String.length s - 1) i) as [Hle|Hgt]; [reflexivity|].
  destruct (String.get i s) as [char|]; [|reflexivity].
  destruct (list_index char istart_markers) as [k|].
  - destruct (nth_error iend_markers k) as [em|]; [|reflexivity].
    destruct (index em (slice_from (i + 1) s)) as [j| |]; simpl; try reflexivity.
    apply IH; lia.
  - apply IH; lia.
Qed.

Lemma parse_ins_loop_total (f : nat) (s : string) :
  forall (i : nat) (acc : list string),
    String.length s - 1 - i < f -> parse_ins_loop f s i acc <> OutOfFuel.
Proof.
  induction f as [|f IH]; intros i acc H; [lia|].
  rewrite parse_ins_loop_unfold.
  destruct (Nat.leb_spec (String.length s - 1) i) as [Hle|Hgt]; [discriminate|].
  destruct (String.get i s) as [char|]; [|discriminate].
  destruct (list_index char istart_markers) as [k|].
  - destruct (nth_error iend_markers k) as [em|]; [|discriminate].
    destruct (index em (slice_from (i + 1) s)) as [j| |] eqn:Hj; simpl;
      try discriminate.
    + apply IH; lia.
    + unfold index in Hj. destruct (find em _); discriminate.
  - apply IH; lia.
Qed.

(** The scanner always comes to an end. *)
Lemma parse_ins_string_total (s : string) : parse_ins_string s <> OutOfFuel.
Proof. apply parse_ins_loop_total. lia. Qed.

(** The table of the source and the pairs of the specification agree. *)
Lemma closing_marker_table (c : ascii) :
  closing_marker c =
  match list_index c istart_markers with
  | Some k => nth_error iend_markers k
  | None => None
  end.
Proof.
  unfold closing_marker, istart_markers, iend_markers.
  cbn [list_index].
  rewrite (Ascii.eqb_sym "[" c), (Ascii.eqb_sym "(" c), (Ascii.eqb_sym "!" c).
  destruct (Ascii.eqb c "["); [reflexivity|].
  destruct (Ascii.eqb c "("); [reflexivity|].
  destruct (Ascii.eqb c "!"); reflexivity.
Qed.

(** *** The scanner, one character or one token at a time *)

Lemma scan_short (s : string) :
  String.length s <= 1 -> parse_ins_string s = Ok [].
Proof.
  intros H. unfold parse_ins_string. rewrite parse_ins_loop_unfold.
  destruct (Nat.leb_spec (String.length s - 1) 0); [reflexivity | lia].
Qed.

Lemma scan_skip (c : ascii) (r : string) :
  closing_marker c = None -> r <> "" ->
  parse_ins_string (String c r) = parse_ins_string r.
Proof.
  intros Hc Hr. unfold parse_ins_string. rewrite parse_ins_loop_unfold.
  destruct r as [|c' r]; [contradiction|].
  cbn [String.length Nat.sub Nat.leb String.get].
  rewrite closing_marker_table in Hc.
  destruct (list_index c istart_markers) as [k|] eqn:Hk.
  - destruct k as [|[|[|k]]]; try discriminate.
    exfalso. clear -Hk. unfold istart_markers in Hk. simpl in Hk.
    repeat match type of Hk with
           | context [if ?b then _ else _] => destruct b; try discriminate
           end.
  - exact (parse_ins_loop_shift _ (String c "") (String c' r) 0 []).
Qed.

Lemma scan_token (c em : ascii) (r : string) (j : nat) :
  closing_marker c = Some em -> find em r = Some j ->
  parse_ins_string (String c r) =
  res_map (app (keep_token (slice_to j r)))
          (parse_ins_string (slice_from (j + 1) r)).
Proof.
  intros Hc Hj. pose proof (find_lt _ _ _ Hj) as Hlt.
  unfold parse_ins_string. rewrite parse_ins_loop_unfold.
  destruct r as [|c' r]; [discriminate|].
  cbn [String.length Nat.sub Nat.leb String.get].
  rewrite closing_marker_table in Hc.
  destruct (list_index c istart_markers) as [k|]; [|discriminate].
  rewrite Hc.
  change (slice_from (0 + 1) (String c (String c' r))) with (String c' r).
  unfold index. rewrite Hj. cbn [bind].
  replace (Nat.min (S (S (String.length r))) (j + 0 + 1)) with (j + 1)
    by (cbn [String.length] in Hlt; lia).
  replace (slice (0 + 1) (j + 1) (String c (String c' r)))
    with (slice_to j (String c' r))
    by (unfold slice; replace (j + 1 - (0 + 1)) with j by lia; reflexivity).
  set (tok := slice_to j (String c' r)).
  set (t := slice_from (j + 1) (String c' r)).
  assert (Hs : String c (String c' r) = (String c (slice_to (j + 1) (String c' r)) ++ t)%string).
  { cbn [append]. unfold t. now rewrite slice_to_from. }
  assert (Hl : j + 1 + 1 = String.length (String c (slice_to (j + 1) (String c' r))) + 0).
  { cbn [String.length]. rewrite length_slice_to; lia. }
  rewrite Hs at 1. rewrite Hl, parse_ins_loop_shift.
  rewrite (parse_ins_loop_fuel _ t (S (String.length t))).
  - rewrite parse_ins_loop_acc. unfold keep_token. fold tok.
    destruct (String.eqb (lower tok) "dum"); reflexivity.
  - unfold t. rewrite length_slice_from. cbn [String.length]. lia.
  - lia.
Qed.

Lemma scan_unclosed (c em : ascii) (r : string) :
  closing_marker c = Some em -> r <> "" -> contains em r = false ->
  parse_ins_string (String c r) = Raise ValueError.
Proof.
  intros Hc Hr Hn. unfold parse_ins_string. rewrite parse_ins_loop_unfold.
  destruct r as [|c' r]; [contradiction|].
  cbn [String.length Nat.sub Nat.leb String.get].
  rewrite closing_marker_table in Hc.
  destruct (list_index c istart_markers) as [k|]; [|discriminate].
  rewrite Hc.
  change (slice_from (0 + 1) (String c (String c' r))) with (String c' r).
  unfold index. now rewrite (find_none _ _ Hn).
Qed.

(** A text that starts with [p], free of opening markers, then holds a
    token between an opening marker and the first matching closing marker:
    the scanner yields the token (unless it is "dum") and goes on with the
    text after the closing marker. *)
Lemma scan_prefix_token (p : string) (o c : ascii) (tok t : string) :
  no_opening p = true -> closing_marker o = Some c -> contains c tok = false ->
  parse_ins_string (p ++ String o (tok ++ String c t)) =
  res_map (app (keep_token tok)) (parse_ins_string t).
Proof.
  intros Hp Ho Htok. induction p as [|a p IH].
  - cbn [append].
    rewrite (scan_token o c _ (String.length tok) Ho (find_app_first _ _ _ Htok)).
    rewrite slice_to_app_l.
    replace (String.length tok + 1) with (String.length (tok ++ String c "") + 0)
      by (rewrite length_app; simpl; lia).
    replace (tok ++ String c t)%string with ((tok ++ String c "") ++ t)%string.
    + now rewrite slice_from_app_r.
    + clear. induction tok as [|x tok IH]; simpl; [reflexivity | now rewrite IH].
  - cbn [append]. simpl in Hp.
    destruct (closing_marker a) eqn:Ha; [discriminate|].
    rewrite scan_skip; [now apply IH | exact Ha |].
    destruct p; discriminate.
Qed.

(** The last character is never read as an opening marker. *)
Lemma scan_prefix_last (p x : string) :
  no_opening p = true -> String.length x <= 1 ->
  parse_ins_string (p ++ x) = Ok [].
Proof.
  intros Hp Hx. induction p as [|a p IH].
  - now apply scan_short.
  - simpl in Hp. destruct (closing_marker a) eqn:Ha; [discriminate|].
    cbn [append]. destruct (string_dec (p ++ x) "") as [E|E].
    + rewrite E. reflexivity.
    + rewrite scan_skip; auto.
Qed.

Lemma scan_prefix_unclosed (p : string) (o c : ascii) (r : string) :
  no_opening p = true -> closing_marker o = Some c -> r <> "" ->
  contains c r = false ->
  parse_ins_string (p ++ String o r) = Raise ValueError.
Proof.
  intros Hp Ho Hr Hn. induction p as [|a p IH].
  - now apply (scan_unclosed o c).
  - simpl in Hp. destruct (closing_marker a) eqn:Ha; [discriminate|].
    cbn [append]. rewrite scan_skip; auto. destruct p; discriminate.
Qed.

End scanner_facts.

(** ** numpy: the sort order, [sort] and [searchsorted] *)

Module np_facts.
Import np.

Lemma Qlt_bool_iff (a b : Q) : Qlt_bool a b = true <-> (a < b)%Q.
Proof.
  unfold Qlt_bool. rewrite negb_true_iff. split.
  - intros H. apply Qnot_le_lt. intros Hle.
    apply Qle_bool_iff in Hle. congruence.
  - intros H. destruct (Qle_bool b a) eqn:E; [|reflexivity].
    apply Qle_bool_iff in E. exfalso. exact (Qlt_not_le _ _ H E).
Qed.

Lemma Qlt_bool_false_iff (a b : Q) : Qlt_bool a b = false <-> (b <= a)%Q.
Proof.
  unfold Qlt_bool. rewrite negb_false_iff. apply Qle_bool_iff.
Qed.

(** [less] is a strict weak order. *)
Lemma less_asym (a b : float) : less a b = true -> less b a = false.
Proof.
  destruct a as [|p| |], b as [|q| |]; simpl; try congruence.
  rewrite Qlt_bool_iff, Qlt_bool_false_iff. apply Qlt_le_weak.
Qed.

Lemma not_less_trans (a b c : float) :
  less b a = false -> less c b = false -> less c a = false.
Proof.
  destruct a as [|p| |], b as [|q| |], c as [|r| |]; simpl; try congruence.
  rewrite !Qlt_bool_false_iff. apply Qle_trans.
Qed.

Lemma less_not_less_trans (a b v : float) :
  less b a = false -> less b v = true -> less a v = true.
Proof.
  intros Hab Hbv. destruct (less a v) eqn:E; [reflexivity|].
  rewrite (not_less_trans v a b E Hab) in Hbv. discriminate.
Qed.

Lemma insert_Forall (P : float -> Prop) (x : float) (l : list float) :
  P x -> Forall P l -> Forall P (insert x l).
Proof.
  intros Hx Hl. induction Hl as [|y l Hy Hl IH]; simpl.
  - constructor; [exact Hx | constructor].
  - destruct (less y x); constructor; auto.
Qed.

Lemma insert_ascending (x : float) (l : list float) :
  ascending l -> ascending (insert x l).
Proof.
  induction 1 as [|a l Ha Hl IH]; simpl.
  - constructor; constructor.
  - destruct (less a x) eqn:E.
    + constructor; [|exact IH].
      apply insert_Forall; [now apply less_asym | exact Ha].
    + constructor; [|now constructor].
      constructor; [exact E|].
      eapply Forall_impl; [|exact Ha]. intros b Hb.
      exact (not_less_trans x a b E Hb).
Qed.

Lemma sort_ascending (a : list float) : ascending (sort a).
Proof.
  induction a as [|x a IH]; simpl; [constructor | now apply insert_ascending].
Qed.

Lemma insert_length (x : float) (l : list float) :
  List.length (insert x l) = S (List.length l).
Proof.
  induction l as [|y l IH]; simpl; [reflexivity|].
  destruct (less y x); simpl; [now rewrite IH | reflexivity].
Qed.

Lemma sort_length (a : list float) : List.length (sort a) = List.length a.
Proof.
  induction a as [|x a IH]; simpl; [reflexivity|].
  now rewrite insert_length, IH.
Qed.

Lemma sort_Permutation (a : list float) : Permutation a (sort a).
Proof.
  induction a as [|x a IH]; simpl; [constructor|].
  transitivity (x :: sort a); [now constructor|].
  clear. induction (sort a) as [|y l IH]; simpl; [reflexivity|].
  destruct (less y x); [|reflexivity].
  transitivity (y :: x :: l); [constructor | now constructor].
Qed.

Lemma count_Permutation (p : float -> bool) (l l' : list float) :
  Permutation l l' -> count p l = count p l'.
Proof.
  unfold count. induction 1; simpl; try congruence.
  - destruct (p x); simpl; congruence.
  - destruct (p x), (p y); reflexivity.
Qed.

Lemma count_le_length (p : float -> bool) (l : list float) :
  count p l <= List.length l.
Proof.
  unfold count. induction l as [|x l IH]; simpl; [lia|].
  destruct (p x); simpl; lia.
Qed.

Lemma count_mono (p q : float -> bool) (l : list float) :
  (forall x, p x = true -> q x = true) -> count p l <= count q l.
Proof.
  intros H. unfold count. induction l as [|x l IH]; simpl; [lia|].
  destruct (p x) eqn:E.
  - rewrite (H x E). simpl. lia.
  - destruct (q x); simpl; lia.
Qed.

Lemma count_negb (p : float -> bool) (l : list float) :
  count p l + count (fun x => negb (p x)) l = List.length l.
Proof.
  unfold count. induction l as [|x l IH]; simpl; [reflexivity|].
  destruct (p x); simpl; lia.
Qed.

Lemma count_ext (p q : float -> bool) (l : list float) :
  Forall (fun x => p x = q x) l -> count p l = count q l.
Proof.
  unfold count. induction 1 as [|x l Hx Hl IH]; simpl; [reflexivity|].
  rewrite Hx. destruct (q x); simpl; congruence.
Qed.

(** On an ascending array, the elements less than [v] come first. *)
Lemma ascending_nth (a : list float) :
  ascending a ->
  forall i j, i <= j -> j < List.length a ->
    less (nth j a NaN) (nth i a NaN) = false.
Proof.
  induction 1 as [|x l Hx Hl IH]; intros i j Hij Hj; simpl in Hj; [lia|].
  destruct j as [|j].
  - assert (i = 0) as -> by lia. simpl.
    destruct x as [|q| |]; simpl; try reflexivity.
    apply Qlt_bool_false_iff, Qle_refl.
  - destruct i as [|i]; simpl.
    + rewrite Forall_forall in Hx. apply Hx, nth_In. lia.
    + apply IH; lia.
Qed.

(** A position [r] that has the elements less than [v] before it and the
    others from it on is the number of elements less than [v]. *)
Lemma count_partition_point (v : float) (a : list float) :
  forall r, r <= List.length a ->
    (forall k, k < r -> less (nth k a NaN) v = true) ->
    (forall k, r <= k -> k < List.length a -> less (nth k a NaN) v = false) ->
    count (fun y => less y v) a = r.
Proof.
  unfold count. induction a as [|y a IH]; intros r Hr Hlo Hhi; simpl in *.
  - lia.
  - destruct r as [|r].
    + rewrite (Hhi 0) by lia. rewrite (IH 0); [reflexivity | lia | intros; lia |].
      intros k _ Hk. apply (Hhi (S k)); lia.
    + rewrite (Hlo 0) by lia. simpl. f_equal. apply IH; [lia | |].
      * intros k Hk. apply (Hlo (S k)). lia.
      * intros k Hk1 Hk2. apply (Hhi (S k)); lia.
Qed.

Lemma bisect_left_spec (v : float) (a : list float) :
  ascending a ->
  forall fuel lo hi,
    hi - lo <= fuel -> lo <= hi -> hi <= List.length a ->
    (forall k, k < lo -> less (nth k a NaN) v = true) ->
    (forall k, hi <= k -> k < List.length a -> less (nth k a NaN) v = false) ->
    bisect_left fuel a v lo hi = count (fun y => less y v) a.
Proof.
  intros Ha. induction fuel as [|fuel IH]; intros lo hi Hf Hle Hhi Hlo Hup.
  - simpl. assert (lo = hi) as -> by lia.
    symmetry. now apply count_partition_point.
  - cbn [bisect_left]. destruct (Nat.ltb_spec lo hi) as [Hlt|Hge].
    + set (mid := lo + (hi - lo) / 2).
      assert (Hmid : lo <= mid /\ mid < hi).
      { unfold mid. split; [lia|].
        assert ((hi - lo) / 2 < hi - lo) by (apply Nat.div_lt; lia). lia. }
      destruct (less (nth mid a NaN) v) eqn:E.
      * apply IH; try lia; [|exact Hup].
        intros k Hk. apply (less_not_less_trans _ (nth mid a NaN)); [|exact E].
        apply ascending_nth; [exact Ha | lia | lia].
      * apply IH; try lia; [exact Hlo|].
        intros k Hk1 Hk2.
        apply (not_less_trans v (nth mid a NaN)); [exact E|].
        apply ascending_nth; [exact Ha | lia | lia].
    + assert (lo = hi) as -> by lia.
      symmetry. now apply count_partition_point.
Qed.

(** [searchsorted] on a sorted array counts the elements less than [v]. *)
Lemma searchsorted_sort (l : list float) (v : float) :
  searchsorted (sort l) v = count (fun y => less y v) l.
Proof.
  unfold searchsorted.
  rewrite (bisect_left_spec v (sort l) (sort_ascending l)); try lia.
  symmetry. apply count_Permutation, sort_Permutation.
Qed.

Lemma less_Fin_mono (a : float) (e1 e2 : Q) :
  (e1 <= e2)%Q -> less a (Fin e1) = true -> less a (Fin e2) = true.
Proof.
  intros He. destruct a as [|q| |]; simpl; try congruence.
  rewrite !Qlt_bool_iff. intros H. exact (Qlt_le_trans _ _ _ H He).
Qed.

Lemma max_nonempty (a : list Q) : a <> [] -> exists m, np.max a = Ok m.
Proof. destruct a; [congruence | simpl; eauto]. Qed.

(** With a non-zero divisor every quotient is finite. *)
Lemma fdiv_finite (x m : Q) : ~ (m == 0)%Q -> fdiv x m = Fin (x / m)%Q.
Proof.
  intros H. unfold fdiv. destruct (Qeq_bool m 0) eqn:E; [|reflexivity].
  apply Qeq_bool_iff in E. contradiction.
Qed.

Lemma ge_Fin (q e : Q) : ge (Fin q) (Fin e) = negb (less (Fin q) (Fin e)).
Proof. reflexivity. Qed.

End np_facts.

(** ** Frames, series and ensembles *)

Module frame_facts.
Import pystr pst en.

Lemma mem_In (k : string) (l : list string) : mem k l = true <-> In k l.
Proof.
  unfold mem. rewrite existsb_exists. split.
  - intros [y [Hy E]]. apply String.eqb_eq in E. now subst.
  - intros H. exists k. split; [exact H | apply String.eqb_refl].
Qed.

Lemma get_all (p : Pst) : pst.get p (par_names p) (obs_names p) = p.
Proof.
  assert (H : forall l : Series,
             filter (fun row => mem (fst row) (labels l)) l = l).
  { intros l. apply forallb_filter_id, forallb_forall. intros row Hrow.
    apply mem_In. unfold labels. now apply in_map. }
  destruct p as [pd od]. unfold pst.get, par_names, obs_names; simpl.
  now rewrite !H.
Qed.

Lemma nth_error_combine {A B : Type} (l : list A) :
  forall (l' : list B) j a b,
    nth_error l j = Some a -> nth_error l' j = Some b ->
    nth_error (combine l l') j = Some (a, b).
Proof.
  induction l as [|x l IH]; intros [|y l'] [|j] a b Ha Hb;
    simpl in *; try discriminate; [congruence | now apply IH].
Qed.

Lemma labels_combine (cols : list string) (row : list Q) :
  incl (labels (combine cols row)) cols.
Proof.
  revert row; induction cols as [|c cols IH]; intros [|v row] k Hk;
    simpl in *; try contradiction.
  destruct Hk as [<-|Hk]; [now left | right; exact (IH row k Hk)].
Qed.

(** With distinct column names, the series of a realization holds the
    value of column [j] under the name of column [j]. *)
Lemma series_get_combine (cols : list string) :
  NoDup cols ->
  forall (row : list Q) (j : nat) (c : string) (val : Q),
    nth_error cols j = Some c -> nth_error row j = Some val ->
    series_get (combine cols row) c = Some val.
Proof.
  induction 1 as [|c0 cols Hnot Hnd IH]; intros row j c val Hc Hv.
  - destruct j; discriminate.
  - destruct row as [|v0 row]; [destruct j; discriminate|].
    destruct j as [|j]; simpl in *.
    + injection Hc as <-. injection Hv as <-. now rewrite String.eqb_refl.
    + destruct (String.eqb_spec c0 c) as [->|Hne].
      * exfalso. apply Hnot. eapply nth_error_In; eassumption.
      * eapply IH; eassumption.
Qed.

Lemma loc_set_labels (frame value frame' : Series) :
  loc_set frame value = Ok frame' -> labels frame' = labels frame.
Proof.
  unfold loc_set. destruct (forallb _ _); [|discriminate].
  intros H; injection H as <-. unfold labels. rewrite map_map.
  apply map_ext. intros [k old]; simpl. now destruct (series_get value k).
Qed.

Lemma loc_set_ok (frame value : Series) :
  incl (labels value) (labels frame) ->
  exists frame', loc_set frame value = Ok frame'.
Proof.
  intros H. unfold loc_set.
  replace (forallb _ _) with true; [eauto|].
  symmetry. apply forallb_forall. intros k Hk. apply mem_In. now apply H.
Qed.

(** After the assignment, a label of the frame that the series has holds
    the value of the series. *)
Lemma loc_set_get (frame value frame' : Series) (c : string) (val : Q) :
  loc_set frame value = Ok frame' ->
  In c (labels frame) -> series_get value c = Some val ->
  series_get frame' c = Some val.
Proof.
  unfold loc_set. destruct (forallb _ _); [|discriminate].
  intros H; injection H as <-. intros Hin Hval.
  induction frame as [|[k old] frame IH]; simpl in *; [contradiction|].
  destruct (String.eqb_spec k c) as [->|Hne].
  - rewrite Hval. simpl. now rewrite String.eqb_refl.
  - destruct Hin as [E|Hin]; [contradiction|].
    destruct (series_get value k); simpl;
      (destruct (String.eqb_spec k c); [contradiction | now apply IH]).
Qed.

(** Row [i] of the back-transformed ensemble *)
Lemma back_transform_row (inv_log : string -> Q -> Q) (e : Ensemble)
    (i j : nat) (row : list Q) (c : string) (val : Q) :
  nth_error (values e) i = Some row ->
  nth_error (columns e) j = Some c -> nth_error row j = Some val ->
  exists row',
    nth_error (values (_back_transform inv_log e)) i = Some row' /\
    nth_error row' j = Some (inv_log c val).
Proof.
  intros Hrow Hc Hv. eexists. split.
  - simpl. apply map_nth_error. exact Hrow.
  - apply (map_nth_error (fun cv : string * Q => inv_log (fst cv) (snd cv))
             j (combine (columns e) row) (d := (c, val))).
    now apply nth_error_combine.
Qed.

Lemma back_transform_length (inv_log : string -> Q -> Q) (e : Ensemble) :
  List.length (values (_back_transform inv_log e)) = List.length (values e).
Proof. simpl. apply length_map. Qed.

End frame_facts.

(** ** The names of the written control files *)

Module name_facts.
Import pystr mc.

Lemma format_d_inj (a b : nat) : format_d a = format_d b -> a = b.
Proof.
  unfold format_d. intros H.
  apply (f_equal NilEmpty.uint_of_string) in H.
  rewrite !NilEmpty.usu in H. injection H as H.
  apply (f_equal Nat.of_uint) in H.
  now rewrite !DecimalNat.Unsigned.of_to in H.
Qed.

Lemma append_inv_head (p a b : string) : (p ++ a = p ++ b)%string -> a = b.
Proof. induction p as [|c p IH]; simpl; intros H; [exact H | injection H; auto]. Qed.

Lemma list_ascii_app (a b : string) :
  list_ascii_of_string (a ++ b) =
  (list_ascii_of_string a ++ list_ascii_of_string b)%list.
Proof. induction a as [|c a IH]; simpl; [reflexivity | now rewrite IH]. Qed.

Lemma append_inv_tail (a b t : string) : (a ++ t = b ++ t)%string -> a = b.
Proof.
  intros H. apply (f_equal list_ascii_of_string) in H.
  rewrite !list_ascii_app in H. apply app_inv_tail in H.
  apply (f_equal string_of_list_ascii) in H.
  now rewrite !string_of_list_ascii_of_string in H.
Qed.

Lemma pst_name_inj (prefix : string) (i j : nat) :
  pst_name prefix i = pst_name prefix j -> i = j.
Proof.
  unfold pst_name. intros H.
  apply append_inv_head, append_inv_tail in H. now apply format_d_inj.
Qed.

Lemma pst_names_NoDup (prefix : string) (n : nat) :
  NoDup (map (pst_name prefix) (seq 0 n)).
Proof.
  generalize 0. induction n as [|n IH]; intros a; simpl; constructor.
  - rewrite in_map_iff. intros [j [E Hj]].
    apply pst_name_inj in E. apply in_seq in Hj. lia.
  - apply IH.
Qed.

End name_facts.

(** ** The loop of [write_psts] *)

Module write_facts.
Import pystr pst en mc frame_facts name_facts.

Lemma write_pst_run (self : MonteCarlo) (prefix : string) (par_en : Ensemble)
    (p : Pst) (i : nat) (w : World) :
  write_pst self prefix par_en p i w =
  match realize self par_en p i with
  | Ok p' =>
      (Ok p', {| files := files w ++ [(pst_name prefix i, p')];
                 logged := (logged w ++ [writing prefix i]) ++ [writing prefix i] |})
  | Raise e =>
      (Raise e, {| files := files w; logged := logged w ++ [writing prefix i] |})
  | OutOfFuel =>
      (OutOfFuel, {| files := files w; logged := logged w ++ [writing prefix i] |})
  end.
Proof.
  unfold write_pst, realize, bindM, lift, log, write, ret, bind.
  destruct (iloc par_en i) as [row| |]; try reflexivity.
  destruct (loc_set (parameter_data p) row) as [pd| |]; try reflexivity.
  cbn [parameter_data observation_data].
  destruct (fst (en.shape (obsensemble self)) =? num_reals self);
    [|reflexivity].
  destruct (iloc (obsensemble self) i) as [orow| |]; try reflexivity.
  destruct (loc_set (observation_data p) orow) as [od| |]; reflexivity.
Qed.

Section realizations.

Variable inv_log : string -> Q -> Q.
Variable self : MonteCarlo.
Variable prefix : string.

Let par_en : Ensemble :=
  if islog (parensemble self)
  then _back_transform inv_log (parensemble self)
  else parensemble self.

Hypothesis Hpar : consistent (parensemble self) (parameter_data (mc_pst self)).
Hypothesis Hobs :
  fst (en.shape (obsensemble self)) = num_reals self ->
  consistent (obsensemble self) (observation_data (mc_pst self)).

Lemma par_en_columns : columns par_en = columns (parensemble self).
Proof. unfold par_en. now destruct (islog (parensemble self)). Qed.

Lemma par_en_row (i j : nat) (row : list Q) (c : string) (val : Q) :
  nth_error (values (parensemble self)) i = Some row ->
  nth_error (columns (parensemble self)) j = Some c ->
  nth_error row j = Some val ->
  exists row',
    nth_error (values par_en) i = Some row' /\
    nth_error row' j =
    Some (if islog (parensemble self) then inv_log c val else val).
Proof.
  intros Hrow Hc Hv. unfold par_en.
  destruct (islog (parensemble self)).
  - now apply back_transform_row with (row := row).
  - eauto.
Qed.

Lemma par_en_length :
  List.length (values par_en) = num_reals self.
Proof.
  unfold par_en, num_reals. destruct (islog (parensemble self)).
  - apply back_transform_length.
  - reflexivity.
Qed.

Lemma realize_ok (p : Pst) (i : nat) :
  kept self p -> i < num_reals self ->
  exists q, realize self par_en p i = Ok q /\ kept self q /\ realizes inv_log self q i.
Proof.
  intros (Kp & Ko & Kn) Hi. unfold realize.
  destruct Hpar as [Hnd Hincl].
  destruct (nth_error (values par_en) i) as [row'|] eqn:Hrow'.
  2:{ apply nth_error_None in Hrow'. rewrite par_en_length in Hrow'. lia. }
  unfold iloc at 1. rewrite Hrow'. cbn [bind]. rewrite par_en_columns.
  destruct (loc_set_ok (parameter_data p)
              (combine (columns (parensemble self)) row')) as [pd Hpd].
  { rewrite Kp. intros k Hk. apply Hincl. exact (labels_combine _ _ _ Hk). }
  rewrite Hpd. cbn [bind].
  assert (Gpar : forall c val,
             realized (parensemble self) i c val ->
             series_get pd c =
             Some (if islog (parensemble self) then inv_log c val else val)).
  { intros c val (row & j & Hrow & Hc & Hv).
    destruct (par_en_row i j row c val Hrow Hc Hv) as (r & Hr & Hrj).
    assert (r = row') as -> by congruence.
    apply (loc_set_get _ _ _ _ _ Hpd).
    - rewrite Kp. apply Hincl. eapply nth_error_In; exact Hc.
    - eapply series_get_combine; eassumption. }
  destruct (Nat.eqb_spec (fst (en.shape (obsensemble self))) (num_reals self))
    as [Heq|Hne].
  - destruct (Hobs Heq) as [Hond Hoincl].
    destruct (nth_error (values (obsensemble self)) i) as [orow|] eqn:Horow.
    2:{ apply nth_error_None in Horow. simpl in Heq. lia. }
    unfold iloc. rewrite Horow. cbn [bind].
    destruct (loc_set_ok (observation_data p)
                (combine (columns (obsensemble self)) orow)) as [od Hod].
    { rewrite Ko. intros k Hk. apply Hoincl. exact (labels_combine _ _ _ Hk). }
    rewrite Hod. cbn [bind]. eexists. split; [reflexivity|].
    unfold kept, realizes. cbn [parameter_data observation_data].
    split; [|split; [|split]].
    + split; [|split].
      * now rewrite (loc_set_labels _ _ _ Hpd).
      * now rewrite (loc_set_labels _ _ _ Hod).
      * intros Hne. contradiction.
    + exact Gpar.
    + intros _ c val (row & j & Hr & Hc & Hv).
      assert (row = orow) as -> by congruence.
      apply (loc_set_get _ _ _ _ _ Hod).
      * rewrite Ko. apply Hoincl. eapply nth_error_In; exact Hc.
      * eapply series_get_combine; eassumption.
    + intros Hne. contradiction.
  - eexists. split; [reflexivity|].
    unfold kept, realizes. cbn [parameter_data observation_data].
    split; [|split; [|split]].
    + split; [|split]; auto. now rewrite (loc_set_labels _ _ _ Hpd).
    + exact Gpar.
    + intros Heq. contradiction.
    + auto.
Qed.

Lemma for_in_write (l : list nat) :
  forall (p : Pst) (w : World),
    kept self p -> (forall i, In i l -> i < num_reals self) ->
    exists (psts : list Pst) (p' : Pst) (w' : World),
      for_in l (write_pst self prefix par_en) p w = (Ok p', w') /\
      files w' = files w ++ combine (map (pst_name prefix) l) psts /\
      List.length psts = List.length l /\
      forall k i q,
        nth_error l k = Some i -> nth_error psts k = Some q -> realizes inv_log self q i.
Proof.
  induction l as [|i l IH]; intros p w Kp Hl.
  - exists [], p, w. split; [reflexivity|]. split; [|split].
    + simpl. now rewrite app_nil_r.
    + reflexivity.
    + intros [|k] i q H; discriminate.
  - destruct (realize_ok p i Kp (Hl i (or_introl eq_refl))) as (q & Hq & Kq & Rq).
    cbn [for_in]. unfold bindM at 1. rewrite write_pst_run, Hq.
    destruct (IH q {| files := files w ++ [(pst_name prefix i, q)];
                      logged := (logged w ++ [writing prefix i])
                                  ++ [writing prefix i] |} Kq)
      as (psts & p' & w' & Hrun & Hfiles & Hlen & Hall).
    { intros j Hj. apply Hl. now right. }
    exists (q :: psts), p', w'. split; [|split; [|split]].
    + exact Hrun.
    + rewrite Hfiles. cbn [files map combine]. now rewrite <- app_assoc.
    + simpl. now rewrite Hlen.
    + intros [|k] i' q' Hi' Hq'; simpl in Hi', Hq'.
      * injection Hi' as <-. injection Hq' as <-. exact Rq.
      * eapply Hall; eassumption.
Qed.

Lemma write_psts_run (w : World) :
  exists (psts : list Pst) (w' : World),
    write_psts inv_log self prefix w = (Ok tt, w') /\
    files w' =
      files w ++ combine (map (pst_name prefix) (seq 0 (num_reals self))) psts /\
    List.length psts = num_reals self /\
    forall i q, nth_error psts i = Some q -> realizes inv_log self q i.
Proof.
  unfold write_psts. rewrite get_all. fold par_en.
  destruct (for_in_write (seq 0 (num_reals self)) (mc_pst self)
              {| files := files w;
                 logged := logged w ++ ["writing realized pest control files"] |})
    as (psts & p' & w' & Hrun & Hfiles & Hlen & Hall).
  { split; [|split]; auto. }
  { intros i Hi. apply in_seq in Hi. lia. }
  rewrite length_seq in Hlen.
  exists psts, {| files := files w';
                  logged := logged w' ++ ["writing realized pest control files"] |}.
  split; [|split; [|split]].
  - unfold bindM, log, for_range. cbn [files logged]. now rewrite Hrun.
  - exact Hfiles.
  - exact Hlen.
  - intros i q Hq. apply (Hall i i q); [|exact Hq].
    rewrite nth_error_seq.
    assert (i < num_reals self).
    { rewrite <- Hlen. apply nth_error_Some. congruence. }
    destruct (Nat.ltb_spec i (num_reals self)); [reflexivity | lia].
Qed.

End realizations.

End write_facts.

(** ** [get_nsing] and [get_null_proj] *)

Module mc_facts.
Import pystr np mat pst en mc np_facts.

(** The rank is the first dimension less the number of ratios that are
    less than [epsilon] in numpy's order. *)
Lemma get_nsing_count (self : MonteCarlo) (epsilon m : Q) :
  np.max (s_x (xtqx self)) = Ok m ->
  get_nsing self epsilon =
  Ok (Z.of_nat (fst (xtqx_shape (xtqx self)))
      - Z.of_nat (count (fun y => less y (Fin epsilon))
                        (ratios (s_x (xtqx self)) m)))%Z.
Proof.
  intros Hm. unfold get_nsing. rewrite Hm. cbn [bind].
  now rewrite searchsorted_sort.
Qed.

Lemma ratios_finite (s : list Q) (m : Q) :
  ~ (m == 0)%Q ->
  Forall (fun r => exists q, r = Fin q) (ratios s m).
Proof.
  intros Hm. unfold ratios. apply Forall_forall. intros r Hr.
  apply in_map_iff in Hr as [x [<- _]]. rewrite (fdiv_finite x m Hm). eauto.
Qed.

(** On finite ratios, "not less than [epsilon]" in numpy's order is
    [>= epsilon]. *)
Lemma count_ge_less (s : list Q) (m epsilon : Q) :
  ~ (m == 0)%Q ->
  count (fun y => less y (Fin epsilon)) (ratios s m) + count_ge s m epsilon
  = List.length s.
Proof.
  intros Hm. unfold count_ge.
  change (List.length (filter (fun r => ge r (Fin epsilon)) (ratios s m)))
    with (count (fun r => ge r (Fin epsilon)) (ratios s m)).
  rewrite (count_ext (fun r => ge r (Fin epsilon))
                     (fun r => negb (less r (Fin epsilon)))).
  - rewrite count_negb. unfold ratios. apply length_map.
  - eapply Forall_impl; [|exact (ratios_finite s m Hm)].
    intros r [q ->]. reflexivity.
Qed.

Lemma count_ge_none (s : list Q) (m epsilon : Q) :
  Forall (fun r => np.lt r (Fin epsilon) = true) (ratios s m) ->
  count_ge s m epsilon = 0.
Proof.
  unfold count_ge. induction 1 as [|r l Hr Hl IH]; simpl; [reflexivity|].
  replace (ge r (Fin epsilon)) with false; [exact IH|].
  destruct r as [|q| |]; simpl in *; try discriminate; try reflexivity.
  now rewrite Hr.
Qed.

Lemma count_ge_all (s : list Q) (m epsilon : Q) :
  Forall (fun r => ge r (Fin epsilon) = true) (ratios s m) ->
  count_ge s m epsilon = List.length s.
Proof.
  unfold count_ge. rewrite <- (length_map (fun x => fdiv x m) s).
  fold (ratios s m).
  induction 1 as [|r l Hr Hl IH]; simpl; [reflexivity|].
  rewrite Hr. simpl. now rewrite IH.
Qed.

Lemma map_seq_const {A : Type} (c : A) (n : nat) :
  forall a, map (fun _ => c) (seq a n) = repeat c n.
Proof. induction n as [|n IH]; intros a; simpl; [reflexivity | now rewrite IH]. Qed.

Lemma nth_map_seq {A : Type} (f : nat -> A) (n i : nat) (d : A) :
  i < n -> nth i (map f (seq 0 n)) d = f i.
Proof.
  intros Hi. rewrite (nth_indep _ d (f 0)) by (now rewrite length_map, length_seq).
  rewrite map_nth, seq_nth; [reflexivity | exact Hi].
Qed.

(** The transpose holds at (i, j) what the matrix holds at (j, i). *)
Lemma item_T (a : Matrix) (i j : nat) :
  i < ncols (x a) -> j < nrows (x a) ->
  item (x (T a)) i j = item (x a) j i.
Proof.
  intros Hi Hj. unfold item at 1. cbn [T x rows].
  now rewrite (nth_map_seq _ _ _ _ Hi), (nth_map_seq _ _ _ _ Hj).
Qed.

(** The product with the transpose is always aligned. *)
Lemma mul_T (a : Matrix) :
  mul a (T a) =
  Ok {| x := {| nrows := nrows (x a);
                ncols := nrows (x a);
                rows :=
                  map (fun i =>
                         map (fun j =>
                                fold_left
                                  (fun acc k =>
                                     (acc + item (x a) i k * item (x (T a)) k j)%Q)
                                  (seq 0 (ncols (x a))) 0%Q)
                             (seq 0 (nrows (x a))))
                      (seq 0 (nrows (x a))) |};
        row_names := row_names a;
        col_names := row_names a |}.
Proof. unfold mul. cbn [T x nrows ncols]. now rewrite Nat.eqb_refl. Qed.

Lemma cols_from_all (m : Matrix) :
  ncols (x (cols_from m (Z.of_nat (ncols (x m))))) = 0.
Proof.
  unfold cols_from, slice_start. cbn [x ncols].
  destruct (Z.ltb_spec (Z.of_nat (ncols (x m))) 0); [lia|].
  rewrite Nat2Z.id. lia.
Qed.

Lemma cols_from_0 (m : Matrix) : cols_from m 0 = m.
Proof.
  destruct m as [[nr nc rs] rn cn]. unfold cols_from, slice_start.
  cbn [x nrows ncols rows row_names col_names Z.ltb Z.compare Z.to_nat Nat.min skipn].
  rewrite Nat.sub_0_r. f_equal. f_equal.
  rewrite <- (map_id rs) at 2. apply map_ext. reflexivity.
Qed.

(** What [get_null_proj] returns for a given [nsing] *)
Lemma get_null_proj_result (self : MonteCarlo) (nsing : Z) (w : World) :
  fst (get_null_proj self (Some nsing) w) =
  mul (cols_from (v (xtqx self)) nsing) (T (cols_from (v (xtqx self)) nsing)).
Proof.
  unfold get_null_proj, bindM, ret, lift, log. cbn [fst].
  destruct (mul _ _); reflexivity.
Qed.

End mc_facts.

(** ** The file parsers *)

Module parser_facts.
Import pystr pst_utils frame_facts.

(** The raw fields that [parse_tpl_file] collects are pairwise distinct
    as they stand in the file: duplicates are removed before the names
    are trimmed and lower-cased. *)
Lemma tpl_fields_NoDup (fields acc : list string) :
  NoDup acc ->
  NoDup (fold_left
           (fun par_names p =>
              if negb (mem p par_names) then par_names ++ [p] else par_names)
           fields acc).
Proof.
  revert acc. induction fields as [|p fields IH]; intros acc Hacc; simpl.
  - exact Hacc.
  - apply IH. destruct (mem p acc) eqn:E; simpl; [exact Hacc|].
    apply NoDup_app; [exact Hacc | repeat constructor; intros [] |].
    intros k Hk [<-|[]]. apply mem_In in Hk. congruence.
Qed.

Lemma tpl_lines_NoDup (marker : string) (f : file) (acc : list string) :
  NoDup acc -> NoDup (tpl_lines marker f acc).
Proof.
  unfold tpl_lines. revert acc.
  induction f as [|line f IH]; intros acc Hacc; simpl; [exact Hacc|].
  apply IH. now apply tpl_fields_NoDup.
Qed.

Lemma parse_tpl_file_names (fs : filesystem) (tpl_file : string)
    (names : list string) :
  parse_tpl_file fs tpl_file = Ok names ->
  exists raw, NoDup raw /\ names = map (fun pn => lower (strip pn)) raw.
Proof.
  unfold parse_tpl_file, bind.
  destruct (open fs tpl_file) as [f| |]; try discriminate.
  destruct (tpl_try f) as [raw| |] eqn:Htry; try discriminate.
  intros H; injection H as <-. exists raw. split; [|reflexivity].
  unfold tpl_try in Htry. destruct (readline f) as [line f'].
  unfold bind in Htry.
  destruct (getitem _ 0) as [h0| |]; try discriminate.
  destruct (mem (lower h0) _); try discriminate.
  destruct (_ =? 2); try discriminate.
  destruct (getitem _ 1) as [marker| |]; try discriminate.
  destruct (String.length marker =? 1); try discriminate.
  injection Htry as <-. apply tpl_lines_NoDup. constructor.
Qed.

(** The headers that [parse_ins_file] refuses: fewer than two tokens, a
    first token other than pif or jif, a marker that is not one
    character. *)
Lemma parse_ins_file_header_raises (fs : filesystem) (ins_file : string)
    (f : file) :
  open fs ins_file = Ok f ->
  List.length (split_ws (strip (fst (readline f)))) < 2
  \/ (exists h0,
         nth_error (split_ws (strip (fst (readline f)))) 0 = Some h0 /\
         mem (lower h0) ["pif"; "jif"] = false)
  \/ (exists marker,
         nth_error (split_ws (strip (fst (readline f)))) 1 = Some marker /\
         String.length marker <> 1) ->
  raises (parse_ins_file fs ins_file).
Proof.
  intros Hopen H. unfold parse_ins_file, raises. rewrite Hopen. cbn [bind].
  destruct (readline f) as [line f']. cbn [fst] in H.
  set (header := split_ws (strip line)) in *.
  unfold getitem.
  destruct header as [|h0 [|marker rest]]; cbn [nth_error bind].
  - eauto.
  - destruct (mem (lower h0) ["pif"; "jif"]); eauto.
  - destruct (mem (lower h0) ["pif"; "jif"]) eqn:Eh; [|eauto].
    destruct (Nat.eqb_spec (String.length marker) 1) as [El|El]; [|eauto].
    exfalso. destruct H as [H|[(h & Hh & Hm)|(m & Hm & Hl)]].
    + simpl in H. lia.
    + simpl in Hh. injection Hh as <-. congruence.
    + simpl in Hm. injection Hm as <-. contradiction.
Qed.

(** The headers that [parse_ins_file] accepts, whatever follows the
    marker on the first line. *)
Lemma parse_ins_file_header_accepts (fs : filesystem) (ins_file : string)
    (line h0 marker : string) (rest : list string) (f' : file) :
  open fs ins_file = Ok (line :: f') ->
  split_ws (strip line) = h0 :: marker :: rest ->
  mem (lower h0) ["pif"; "jif"] = true ->
  String.length marker = 1 ->
  parse_ins_file fs ins_file =
  res_map (map (fun on => lower (strip on))) (ins_lines marker f' []).
Proof.
  intros Hopen Hheader Hh0 Hmarker. unfold parse_ins_file.
  rewrite Hopen. cbn [bind readline]. rewrite Hheader.
  unfold getitem. cbn [nth_error bind]. rewrite Hh0, Hmarker.
  reflexivity.
Qed.

End parser_facts.

(** * The claims *)

Import pystr pst_utils np mat pst en mc examples.
Import scanner_facts np_facts frame_facts name_facts write_facts mc_facts.

(** ** The scanner *)

(** C1. For every line, [parse_ins_string] extracts the tokens in scan
    order. When the text up to an opening marker ["["], ["("] or ["!"]
    holds no opening marker, the token is the text strictly between that
    marker and the first matching closing marker after it; a token equal to
    "dum" in any case is dropped and every other token is appended; the
    scan goes on right after the closing marker, so the result is the token
    followed by the tokens of the rest. The last character of a line opens
    no token. The line [l1 w w w !obs1! w !dum! !obs2!] gives
    [obs1; obs2]. *)
Theorem parse_ins_string_tokens :
  (forall (p : string) (o c : ascii) (tok t : string),
      no_opening p = true ->
      closing_marker o = Some c ->
      contains c tok = false ->
      parse_ins_string (p ++ String o (tok ++ String c t)) =
      res_map (app (if String.eqb (lower tok) "dum" then [] else [tok]))
              (parse_ins_string t))
  /\ (forall p x : string,
         no_opening p = true -> String.length x <= 1 ->
         parse_ins_string (p ++ x) = Ok [])
  /\ parse_ins_string "l1 w w w !obs1! w !dum! !obs2!" = Ok ["obs1"; "obs2"].
Proof.
  split; [|split].
  - intros p o c tok t Hp Ho Htok. now apply scan_prefix_token.
  - intros p x Hp Hx. now apply scan_prefix_last.
  - reflexivity.
Qed.

Lemma parse_ins_string_tokens_witness :
  no_opening "l1 w " = true /\
  closing_marker "(" = Some ")"%char /\
  contains ")" "Obs1" = false /\
  parse_ins_string ("l1 w " ++ String "(" ("Obs1" ++ String ")" " !DUM! [obs2]")) =
  res_map (app ["Obs1"]) (parse_ins_string " !DUM! [obs2]").
Proof.
  split; [reflexivity|]. split; [reflexivity|]. split; [reflexivity|].
  apply (proj1 parse_ins_string_tokens); reflexivity.
Defined.

(** C2. The code at a line whose opening marker has no closing marker
    after it: [string[idx+1:].index(em)] raises [ValueError] before the
    [min(len(string), ...)] clamp is reached, so the scanner does not
    return a token that runs to the end of the line. *)
Theorem parse_ins_string_unclosed :
  parse_ins_string "l1 w !obs1" = Raise ValueError.
Proof. reflexivity. Qed.

(** C10. [parse_ins_string] can return empty tokens: an opening marker
    immediately followed by its closing marker contributes the empty
    string, which is not "dum"; the lines [!!] and [a[]b] both give one
    empty token. *)
Theorem parse_ins_string_empty_token :
  (forall (p : string) (o c : ascii) (t : string),
      no_opening p = true ->
      closing_marker o = Some c ->
      parse_ins_string (p ++ String o (String c t)) =
      res_map (cons "") (parse_ins_string t))
  /\ parse_ins_string "!!" = Ok [""]
  /\ parse_ins_string "a[]b" = Ok [""].
Proof.
  split; [|split; reflexivity].
  intros p o c t Hp Ho.
  pose proof (scan_prefix_token p o c "" t Hp Ho eq_refl) as H.
  change ("" ++ String c t)%string with (String c t) in H. rewrite H.
  destruct (parse_ins_string t); reflexivity.
Qed.

Lemma parse_ins_string_empty_token_witness :
  no_opening "l1 " = true /\
  closing_marker "[" = Some "]"%char /\
  parse_ins_string ("l1 " ++ String "[" (String "]" " !h1!")) =
  res_map (cons "") (parse_ins_string " !h1!").
Proof.
  split; [reflexivity|]. split; [reflexivity|].
  apply (proj1 parse_ins_string_empty_token); reflexivity.
Defined.

(** ** The file parsers *)

(** C3. The code at a template file that names one parameter twice with
    different padding: [parse_tpl_file] removes duplicates among the raw
    fields and trims and lower-cases afterwards, so the returned list
    holds the name twice. *)
Theorem parse_tpl_file_padded_duplicate :
  parse_tpl_file
    [("model.tpl", [line "ptf #"; line "k = #k1  # #k1 #"])] "model.tpl"
  = Ok ["k1"; "k1"]
  /\ parse_tpl_file
       [("model.tpl", [line "ptf #"; line "#par1# #par2# #par1#"])] "model.tpl"
     = Ok ["par1"; "par2"].
Proof. split; reflexivity. Qed.

(** C6. The code at an instruction file whose first line has three
    tokens: [parse_ins_file] has no check of the number of tokens and
    parses the file, where [parse_tpl_file] raises on the same shape of
    header. *)
Theorem parse_ins_file_three_tokens :
  parse_ins_file
    [("model.ins", [line "pif ~ extra"; line "l1 ~,~ !h1!"])] "model.ins"
  = Ok ["h1"]
  /\ raises (parse_tpl_file
               [("model.tpl", [line "ptf # extra"; line "k = #k1#"])] "model.tpl").
Proof.
  split; [reflexivity|]. eexists. reflexivity.
Qed.

(** ** The effective rank *)

(** C4, as stated, fails on a spectrum of zeros: every ratio is 0/0, not
    a number; numpy sorts these last, so the insertion point of epsilon is
    0 and the rank is the full length 2, while no ratio is >= epsilon. *)
Lemma get_nsing_zero_spectrum :
  np.max [0; 0]%Q = Ok 0%Q
  /\ get_nsing (engine [0; 0]%Q) default_epsilon = Ok 2%Z
  /\ count_ge [0; 0]%Q 0 default_epsilon = 0
  /\ get_nsing (engine [0; 0]%Q) default_epsilon
     <> Ok (Z.of_nat (count_ge [0; 0]%Q 0 default_epsilon)).
Proof.
  split; [reflexivity|]. split; [reflexivity|]. split; [reflexivity|].
  discriminate.
Qed.

(** C4, amended. For a decomposition with one singular value per row
    of [xtqx], whose spectrum is not empty and has a maximum [m] other
    than zero, and for every epsilon: [get_nsing] is the length of the
    spectrum less the binary-search insertion point of epsilon in the
    ascending sort of the values normalized by [m]; this is the number of
    singular values whose normalized ratio is >= epsilon; it is 0 when
    all ratios are below epsilon and the full length when all are at or
    above it; for the spectrum [100, 10, 1, 1e-7] and epsilon 1e-6 it
    is 3. *)
Theorem get_nsing_effective_rank (self : MonteCarlo) (epsilon m : Q) :
  np.max (s_x (xtqx self)) = Ok m ->
  ~ (m == 0)%Q ->
  fst (xtqx_shape (xtqx self)) = List.length (s_x (xtqx self)) ->
  get_nsing self epsilon =
    Ok (Z.of_nat (List.length (s_x (xtqx self)))
        - Z.of_nat (searchsorted (np.sort (ratios (s_x (xtqx self)) m))
                                 (Fin epsilon)))%Z
  /\ get_nsing self epsilon =
       Ok (Z.of_nat (count_ge (s_x (xtqx self)) m epsilon))
  /\ (Forall (fun r => np.lt r (Fin epsilon) = true)
             (ratios (s_x (xtqx self)) m) ->
      get_nsing self epsilon = Ok 0%Z)
  /\ (Forall (fun r => np.ge r (Fin epsilon) = true)
             (ratios (s_x (xtqx self)) m) ->
      get_nsing self epsilon = Ok (Z.of_nat (List.length (s_x (xtqx self)))))
  /\ get_nsing (engine [100; 10; 1; 1 # 10000000]%Q) (1 # 1000000) = Ok 3%Z.
Proof.
  intros Hm Hnz Hshape.
  pose proof (count_ge_less (s_x (xtqx self)) m epsilon Hnz) as Hcount.
  assert (Hge : get_nsing self epsilon =
                Ok (Z.of_nat (count_ge (s_x (xtqx self)) m epsilon))).
  { rewrite (get_nsing_count self epsilon m Hm), Hshape. f_equal. lia. }
  split; [|split; [exact Hge|split; [|split]]].
  - unfold get_nsing. rewrite Hm, Hshape. reflexivity.
  - intros Hall. rewrite Hge. now rewrite (count_ge_none _ _ _ Hall).
  - intros Hall. rewrite Hge. now rewrite (count_ge_all _ _ _ Hall).
  - reflexivity.
Qed.

Lemma get_nsing_effective_rank_witness :
  get_nsing (engine [8; 4; 2; 1]%Q) (1 # 3) =
  Ok (Z.of_nat (count_ge [8; 4; 2; 1]%Q 8 (1 # 3))).
Proof.
  apply (get_nsing_effective_rank (engine [8; 4; 2; 1]%Q) (1 # 3) 8).
  - reflexivity.
  - discriminate.
  - reflexivity.
Defined.

(** C8. For every spectrum, [get_nsing] is non-increasing in epsilon:
    with epsilon1 <= epsilon2 the rank for epsilon2 is at most the rank
    for epsilon1 (on an empty spectrum both calls raise the same error,
    and no rank is returned). *)
Theorem get_nsing_monotone (self : MonteCarlo) (epsilon1 epsilon2 : Q) :
  (epsilon1 <= epsilon2)%Q ->
  match get_nsing self epsilon1, get_nsing self epsilon2 with
  | Ok rank1, Ok rank2 => (rank2 <= rank1)%Z
  | Raise e1, Raise e2 => e1 = e2 /\ s_x (xtqx self) = []
  | _, _ => False
  end.
Proof.
  intros He. destruct (s_x (xtqx self)) as [|x0 s] eqn:Hs.
  - unfold get_nsing. rewrite Hs. simpl. auto.
  - destruct (max_nonempty (x0 :: s)) as [m Hm]; [discriminate|].
    rewrite <- Hs in Hm.
    rewrite !(get_nsing_count self _ m Hm).
    pose proof (count_mono (fun y => less y (Fin epsilon1))
                  (fun y => less y (Fin epsilon2))
                  (ratios (s_x (xtqx self)) m)
                  (fun y => less_Fin_mono y _ _ He)).
    lia.
Qed.

Lemma get_nsing_monotone_witness :
  match get_nsing (engine [8; 4; 2; 1]%Q) (1 # 8),
        get_nsing (engine [8; 4; 2; 1]%Q) (1 # 3) with
  | Ok rank1, Ok rank2 => (rank2 <= rank1)%Z
  | Raise e1, Raise e2 =>
      e1 = e2 /\ s_x (xtqx (engine [8; 4; 2; 1]%Q)) = []
  | _, _ => False
  end.
Proof.
  apply (get_nsing_monotone (engine [8; 4; 2; 1]%Q) (1 # 8) (1 # 3)).
  discriminate.
Defined.

(** ** The null-space projector *)

(** C9. For a decomposition with one right singular vector per singular
    value: [get_null_proj] with [nsing] equal to the length of the
    spectrum returns the zero matrix (V2 has no column), labelled by the
    rows of V on both sides; with [nsing = 0] it returns the product of V
    and its transpose over all the right singular vectors. *)
Theorem get_null_proj_extremes (self : MonteCarlo) (w : World) :
  ncols (x (v (xtqx self))) = List.length (s_x (xtqx self)) ->
  fst (get_null_proj self
         (Some (Z.of_nat (List.length (s_x (xtqx self))))) w) =
    Ok (zeros (nrows (x (v (xtqx self)))) (row_names (v (xtqx self))))
  /\ ncols (x (cols_from (v (xtqx self))
                 (Z.of_nat (List.length (s_x (xtqx self)))))) = 0
  /\ exists P : Matrix,
       mul (v (xtqx self)) (T (v (xtqx self))) = Ok P /\
       fst (get_null_proj self (Some 0%Z) w) = Ok P.
Proof.
  intros Hcols. split; [|split].
  - rewrite get_null_proj_result, mul_T, <- Hcols.
    rewrite cols_from_all. unfold zeros. cbn [seq fold_left].
    cbn [cols_from x nrows row_names].
    do 3 f_equal. now rewrite !map_seq_const.
  - rewrite <- Hcols. apply cols_from_all.
  - rewrite get_null_proj_result, cols_from_0, mul_T. eauto.
Qed.

Lemma get_null_proj_extremes_witness :
  fst (get_null_proj (engine [3; 1]%Q) (Some 2%Z) world0) =
  Ok (zeros 2 ["k1"; "k2"]).
Proof.
  apply (get_null_proj_extremes (engine [3; 1]%Q) world0). reflexivity.
Defined.

(** ** Writing the realizations *)

(** C5. For an engine whose ensembles belong to its control file (their
    columns are distinct names of the control file, as the constructors
    build them) and whose parameter ensemble holds [num_reals]
    realizations, [write_psts prefix] returns normally and writes exactly
    [num_reals] control files, named [prefix ++ i ++ ".pst"] for
    i = 0 .. num_reals - 1, all names distinct. In file [i] the parameter
    values are those of row [i] of the parameter ensemble, after the
    inverse log-transform when the ensemble is log-transformed; the
    observation values are those of row [i] of the observation ensemble
    when that ensemble has [num_reals] realizations, and are left as in the
    control file of the engine when it has not. *)
Theorem write_psts_realizations (inv_log : string -> Q -> Q)
    (self : MonteCarlo) (prefix : string) (w : World) :
  consistent (parensemble self) (parameter_data (mc_pst self)) ->
  (fst (en.shape (obsensemble self)) = num_reals self ->
   consistent (obsensemble self) (observation_data (mc_pst self))) ->
  exists (psts : list Pst) (w' : World),
    write_psts inv_log self prefix w = (Ok tt, w')
    /\ files w' =
         files w ++ combine (map (pst_name prefix) (seq 0 (num_reals self))) psts
    /\ List.length psts = num_reals self
    /\ NoDup (map (pst_name prefix) (seq 0 (num_reals self)))
    /\ (forall i : nat,
           pst_name prefix i = (prefix ++ format_d i ++ ".pst")%string)
    /\ forall (i : nat) (p : Pst),
         nth_error psts i = Some p ->
         (forall c val,
             realized (parensemble self) i c val ->
             series_get (parameter_data p) c =
             Some (if islog (parensemble self) then inv_log c val else val))
         /\ (fst (en.shape (obsensemble self)) = num_reals self ->
             forall c val,
               realized (obsensemble self) i c val ->
               series_get (observation_data p) c = Some val)
         /\ (fst (en.shape (obsensemble self)) <> num_reals self ->
             observation_data p = observation_data (mc_pst self)).
Proof.
  intros Hpar Hobs.
  destruct (write_psts_run inv_log self prefix Hpar Hobs w)
    as (psts & w' & Hrun & Hfiles & Hlen & Hall).
  exists psts, w'. split; [exact Hrun|]. split; [exact Hfiles|].
  split; [exact Hlen|]. split; [apply pst_names_NoDup|].
  split; [reflexivity|]. exact Hall.
Qed.

Lemma write_psts_realizations_witness :
  exists (psts : list Pst) (w' : World),
    write_psts twice drawn "r" world0 = (Ok tt, w')
    /\ files w' = combine ["r0.pst"; "r1.pst"] psts
    /\ List.length psts = 2.
Proof.
  destruct (write_psts_realizations twice drawn "r" world0)
    as (psts & w' & Hrun & Hfiles & Hlen & _).
  - split.
    + repeat constructor; simpl; intuition discriminate.
    + intros k Hk. exact Hk.
  - intros _. split.
    + repeat constructor; simpl; intuition discriminate.
    + intros k Hk. exact Hk.
  - exists psts, w'. split; [exact Hrun|]. split; [exact Hfiles | exact Hlen].
Defined.

(** C7, as stated, fails: on the engine that [MonteCarlo.__init__] builds,
    before any draw, [write_psts] raises nothing; it returns normally. *)
Lemma write_psts_empty_returns :
  init (Some control) (decomposition [3; 1]%Q) = Ok (engine [3; 1]%Q)
  /\ fst (write_psts twice (engine [3; 1]%Q) "r" world0) = Ok tt
  /\ ~ raises (fst (write_psts twice (engine [3; 1]%Q) "r" world0)).
Proof.
  split; [reflexivity|]. split; [reflexivity|].
  intros [e He]. discriminate He.
Qed.

(** C7, amended. On an engine in the EMPTY state, as [MonteCarlo.__init__]
    builds it and before a draw has populated any realization,
    [write_psts] raises no error: the engine holds zero realizations, the
    loop over them does not run, the call returns normally and writes no
    control file (it only logs its start and its end). *)
Theorem write_psts_empty (inv_log : string -> Q -> Q) (p : Pst)
    (decomposition : XtQX) (self : MonteCarlo) (prefix : string) (w : World) :
  init (Some p) decomposition = Ok self ->
  num_reals self = 0
  /\ write_psts inv_log self prefix w =
       (Ok tt,
        {| files := files w;
           logged := (logged w ++ ["writing realized pest control files"])
                       ++ ["writing realized pest control files"] |}).
Proof.
  intros Hinit. injection Hinit as <-. split; reflexivity.
Qed.

Lemma write_psts_empty_witness :
  num_reals (engine [3; 1]%Q) = 0
  /\ write_psts twice (engine [3; 1]%Q) "r" world0 =
       (Ok tt,
        {| files := [];
           logged := ["writing realized pest control files";
                      "writing realized pest control files"] |}).
Proof.
  apply (write_psts_empty twice control (decomposition [3; 1]%Q)
           (engine [3; 1]%Q) "r" world0).
  reflexivity.
Defined.

(** * Further properties *)

(** ** The scanner, on every line *)

Module scanner_more.
Import pystr pystr_facts pst_utils pst_utils_spec scanner_facts.

Lemma parse_ins_loop_tokens (fuel : nat) (s : string) :
  forall (i : nat) (acc toks : list string),
    Forall (token_of s) acc ->
    parse_ins_loop fuel s i acc = Ok toks ->
    Forall (token_of s) toks.
Proof.
  induction fuel as [|fuel IH]; intros i acc toks Hacc; [discriminate|].
  rewrite parse_ins_loop_unfold.
  destruct (String.length s - 1 <=? i).
  { intros H; injection H as <-. exact Hacc. }
  destruct (String.get i s) as [char|]; [|discriminate].
  destruct (list_index char istart_markers) as [k|]; [|apply IH; exact Hacc].
  destruct (nth_error iend_markers k) as [em|]; [|discriminate].
  destruct (index em (slice_from (i + 1) s)) as [j| |]; try discriminate.
  cbn [bind].
  set (e := Nat.min (String.length s) (j + i + 1)).
  destruct (String.eqb (lower (slice (i + 1) e s)) "dum") eqn:E; cbn [negb].
  - apply IH; exact Hacc.
  - apply IH. apply Forall_app. split; [exact Hacc|].
    constructor; [|constructor]. split; [exact E | eauto].
Qed.

Lemma get_in_range (s : string) (i : nat) :
  i < String.length s -> exists c, String.get i s = Some c.
Proof.
  revert i; induction s as [|a s IH]; intros i Hi; simpl in Hi; [lia|].
  destruct i as [|i]; simpl; [eauto | apply IH; lia].
Qed.

Lemma list_index_lt (c : ascii) (l : list ascii) (k : nat) :
  list_index c l = Some k -> k < List.length l.
Proof.
  revert k; induction l as [|a l IH]; simpl; intros k H; [discriminate|].
  destruct (Ascii.eqb a c).
  - injection H as <-. lia.
  - destruct (list_index c l) as [k'|]; [|discriminate].
    injection H as <-. specialize (IH k' eq_refl). lia.
Qed.

(** The only exception of the loop is the [ValueError] of [index]. *)
Lemma parse_ins_loop_raises (fuel : nat) (s : string) :
  forall (i : nat) (acc : list string) (e : exn),
    parse_ins_loop fuel s i acc = Raise e -> e = ValueError.
Proof.
  induction fuel as [|fuel IH]; intros i acc e; [discriminate|].
  rewrite parse_ins_loop_unfold.
  destruct (Nat.leb_spec (String.length s - 1) i) as [Hle|Hgt]; [discriminate|].
  destruct (get_in_range s i) as [char Hc]; [lia|]. rewrite Hc.
  destruct (list_index char istart_markers) as [k|] eqn:Hk; [|apply IH].
  apply list_index_lt in Hk.
  destruct (nth_error iend_markers k) as [em|] eqn:Hem.
  2:{ apply nth_error_None in Hem. simpl in Hk, Hem. lia. }
  unfold index. destruct (find em (slice_from (i + 1) s)); cbn [bind].
  - apply IH.
  - intros H; injection H as <-. reflexivity.
Qed.

End scanner_more.

(** ** Trimming and lower-casing *)

Module normal_facts.
Import pystr pystr_facts pst_formats.

Lemma is_space_lower_char (c : ascii) : is_space (lower_char c) = is_space c.
Proof. destruct c as [[] [] [] [] [] [] [] []]; reflexivity. Qed.

Lemma lower_char_idem (c : ascii) : lower_char (lower_char c) = lower_char c.
Proof. destruct c as [[] [] [] [] [] [] [] []]; reflexivity. Qed.

Lemma lower_idem (s : string) : lower (lower s) = lower s.
Proof.
  induction s as [|c s IH]; simpl; [reflexivity|].
  now rewrite lower_char_idem, IH.
Qed.

Lemma lower_app (a b : string) : lower (a ++ b) = (lower a ++ lower b)%string.
Proof. induction a as [|c a IH]; simpl; [reflexivity | now rewrite IH]. Qed.

Lemma lower_length (s : string) : String.length (lower s) = String.length s.
Proof. induction s as [|c s IH]; simpl; [reflexivity | now rewrite IH]. Qed.

Lemma lstrip_lower (s : string) : lstrip (lower s) = lower (lstrip s).
Proof.
  induction s as [|c s IH]; simpl; [reflexivity|].
  rewrite is_space_lower_char. destruct (is_space c); [exact IH | reflexivity].
Qed.

Lemma rstrip_cons (c : ascii) (r : string) :
  rstrip (String c r) =
  match rstrip r with
  | "" => if is_space c then "" else String c ""
  | String _ _ => String c (rstrip r)
  end.
Proof. simpl. now destruct (rstrip r). Qed.

Lemma rstrip_lower (s : string) : rstrip (lower s) = lower (rstrip s).
Proof.
  induction s as [|c s IH]; [reflexivity|].
  cbn [lower]. rewrite !rstrip_cons, IH, is_space_lower_char.
  destruct (rstrip s) as [|c' r']; cbn [lower].
  - now destruct (is_space c).
  - reflexivity.
Qed.

(** Trimming and lower-casing commute. *)
Lemma strip_lower (s : string) : strip (lower s) = lower (strip s).
Proof. unfold strip. now rewrite lstrip_lower, rstrip_lower. Qed.

Lemma rstrip_idem (s : string) : rstrip (rstrip s) = rstrip s.
Proof.
  induction s as [|c s IH]; [reflexivity|].
  rewrite rstrip_cons. destruct (rstrip s) as [|c' r'] eqn:E.
  - destruct (is_space c) eqn:Ec; [reflexivity|]. simpl. now rewrite Ec.
  - rewrite rstrip_cons, IH. reflexivity.
Qed.

Lemma lstrip_no_lead (s : string) : no_lead (lstrip s).
Proof.
  induction s as [|c s IH]; simpl; [exact I|].
  destruct (is_space c) eqn:E; [exact IH | exact E].
Qed.

Lemma no_lead_lstrip (s : string) : no_lead s -> lstrip s = s.
Proof. destruct s as [|c s]; simpl; [reflexivity | now intros ->]. Qed.

Lemma rstrip_no_lead (s : string) : no_lead s -> no_lead (rstrip s).
Proof.
  destruct s as [|c s]; [exact (fun H => H)|]. intros H. simpl in H.
  rewrite rstrip_cons. destruct (rstrip s); simpl; now rewrite ?H.
Qed.

Lemma strip_idem (s : string) : strip (strip s) = strip s.
Proof.
  unfold strip.
  rewrite (no_lead_lstrip (rstrip (lstrip s)))
    by apply rstrip_no_lead, lstrip_no_lead.
  apply rstrip_idem.
Qed.

Lemma normalized_lower_strip (s : string) : normalized (lower (strip s)).
Proof.
  split; [apply lower_idem|].
  now rewrite strip_lower, strip_idem.
Qed.

Lemma lstrip_spaces (k : nat) (s : string) :
  lstrip (spaces k ++ s) = lstrip s.
Proof. induction k as [|k IH]; simpl; [reflexivity | exact IH]. Qed.

Lemma length_spaces (k : nat) : String.length (spaces k) = k.
Proof. induction k as [|k IH]; simpl; [reflexivity | now rewrite IH]. Qed.

Lemma length_rjust (n : nat) (s : string) :
  String.length (rjust n s) = Nat.max n (String.length s).
Proof. unfold rjust. rewrite length_app, length_spaces. lia. Qed.

Lemma strip_rjust (n : nat) (s : string) : strip (rjust n s) = strip s.
Proof. unfold strip, rjust. now rewrite lstrip_spaces. Qed.

End normal_facts.

(** ** The file parsers, on every file *)

Module parser_more.
Import pystr pst_utils pst_utils_spec pst_formats.
Import frame_facts parser_facts normal_facts scanner_more.

Lemma tpl_fields_In (fields acc : list string) (p : string) :
  In p (fold_left
          (fun par_names p =>
             if negb (mem p par_names) then par_names ++ [p] else par_names)
          fields acc)
  <-> In p acc \/ In p fields.
Proof.
  revert acc. induction fields as [|q fields IH]; intros acc; simpl.
  - tauto.
  - rewrite IH. destruct (mem q acc) eqn:E; simpl.
    + apply mem_In in E. split; [tauto|].
      intros [H|[<-|H]]; tauto.
    + rewrite in_app_iff. simpl. tauto.
Qed.

Lemma tpl_lines_In (marker : string) (f : file) (acc : list string)
    (p : string) :
  In p (tpl_lines marker f acc)
  <-> In p acc \/ exists line, In line f /\ In p (tpl_fields marker line).
Proof.
  unfold tpl_lines. revert acc.
  induction f as [|line f IH]; intros acc; simpl.
  - split; [tauto|]. intros [H|[l [[] _]]]. exact H.
  - rewrite IH, tpl_fields_In. unfold tpl_fields. split.
    + intros [[H|H]|[l [Hl Hp]]]; eauto.
    + intros [H|[l [[<-|Hl] Hp]]]; eauto.
Qed.

(** What [tpl_try] returns, by the shape of the first line. *)
Lemma tpl_try_header (f : file) :
  (exists h0 marker,
      split_ws (strip (fst (readline f))) = [h0; marker] /\
      mem (lower h0) ["ptf"; "jtf"] = true /\
      String.length marker = 1 /\
      tpl_try f = Ok (tpl_lines marker (snd (readline f)) []))
  \/ (~ tpl_header (fst (readline f)) /\ exists e, tpl_try f = Raise e).
Proof.
  unfold tpl_try, tpl_header. destruct (readline f) as [line f'].
  cbn [fst snd]. unfold getitem.
  destruct (split_ws (strip line)) as [|h0 [|marker [|x rest]]];
    cbn [nth_error bind List.length Nat.eqb].
  - right. split; [|eauto]. intros (h & m & H & _). discriminate.
  - right. split; [intros (h & m & H & _); discriminate|].
    destruct (mem (lower h0) ["ptf"; "jtf"]); eauto.
  - destruct (mem (lower h0) ["ptf"; "jtf"]) eqn:Eh.
    + destruct (Nat.eqb_spec (String.length marker) 1) as [El|El].
      * left. exists h0, marker. auto.
      * right. split; [|eauto]. intros (h & m & H & _ & Hm).
        injection H as <- <-. contradiction.
    + right. split; [|eauto]. intros (h & m & H & Hh & _).
      injection H as <- <-. congruence.
  - right. split; [intros (h & m & H & _); discriminate|].
    destruct (mem (lower h0) ["ptf"; "jtf"]); eauto.
Qed.

Lemma for_each_app {A St : Type} (l1 l2 : list A)
    (body : St -> A -> result St) (st : St) :
  for_each (l1 ++ l2) body st = bind (for_each l1 body st) (for_each l2 body).
Proof.
  revert st. induction l1 as [|x l1 IH]; intros st; simpl; [reflexivity|].
  destruct (body st x); simpl; auto.
Qed.

(** Scanning the items of a line one after the other appends their
    tokens. *)
Lemma for_each_items (items : list string) (tokens : list (list string)) :
  Forall2 (fun item toks => parse_ins_string item = Ok toks) items tokens ->
  forall acc,
    for_each items
      (fun obs_names item =>
         bind (parse_ins_string item) (fun names => Ok (obs_names ++ names)))
      acc
    = Ok (acc ++ concat tokens).
Proof.
  induction 1 as [|item toks items tokens Hi Hrest IH]; intros acc; simpl.
  - now rewrite app_nil_r.
  - rewrite Hi. simpl. rewrite IH. now rewrite app_assoc.
Qed.

Lemma ins_lines_cons (marker line : string) (f : file) (acc : list string) :
  ins_lines marker (line :: f) acc =
  bind (ins_lines marker [line] acc) (ins_lines marker f).
Proof. exact (for_each_app [line] f _ acc). Qed.

Lemma ins_lines_one (marker line : string) (names acc : list string) :
  ins_line marker line names ->
  ins_lines marker [line] acc = Ok (acc ++ names).
Proof.
  unfold ins_line, ins_lines. cbn [for_each].
  destruct (contains (marker_char marker) line).
  - intros (tokens & Hall & ->).
    rewrite (for_each_items _ _ Hall). reflexivity.
  - intros ->. reflexivity.
Qed.

Lemma ins_lines_all (marker : string) (f : file)
    (names : list (list string)) :
  Forall2 (ins_line marker) f names ->
  forall acc, ins_lines marker f acc = Ok (acc ++ concat names).
Proof.
  induction 1 as [|line ns f names Hl Hrest IH]; intros acc.
  - simpl. now rewrite app_nil_r.
  - rewrite ins_lines_cons, (ins_lines_one _ _ _ _ Hl). cbn [bind].
    rewrite IH. simpl. now rewrite app_assoc.
Qed.

(** The exception of a line stops the file. *)
Lemma ins_lines_raise (marker : string) (pre : file)
    (names : list (list string)) (bad : string) (post : file) (e : exn) :
  Forall2 (ins_line marker) pre names ->
  contains (marker_char marker) bad = false ->
  parse_ins_string (strip bad) = Raise e ->
  forall acc, ins_lines marker (pre ++ bad :: post) acc = Raise e.
Proof.
  intros Hpre Hm He acc. unfold ins_lines. rewrite for_each_app.
  fold (ins_lines marker pre acc). rewrite (ins_lines_all _ _ _ Hpre).
  cbn [bind for_each]. rewrite Hm, He. reflexivity.
Qed.

Lemma parse_ins_file_Ok (fs : filesystem) (ins_file : string)
    (names : list string) :
  parse_ins_file fs ins_file = Ok names ->
  exists obs_names, names = map (fun on => lower (strip on)) obs_names.
Proof.
  unfold parse_ins_file, bind.
  destruct (open fs ins_file) as [f| |]; try discriminate.
  destruct (readline f) as [line f'].
  destruct (getitem _ 0) as [h0| |]; try discriminate.
  destruct (mem (lower h0) _); try discriminate.
  destruct (getitem _ 1) as [marker| |]; try discriminate.
  destruct (String.length marker =? 1); try discriminate.
  destruct (ins_lines marker f' []) as [obs| |]; try discriminate.
  intros H; injection H as <-. eauto.
Qed.

Lemma map_normalized (l : list string) :
  Forall normalized (map (fun n => lower (strip n)) l).
Proof.
  apply Forall_forall. intros n Hn. apply in_map_iff in Hn as [x [<- _]].
  apply normalized_lower_strip.
Qed.

End parser_more.

(** ** More on [get_nsing] and [get_null_proj] *)

Module mc_more.
Import pystr np mat pst en mc mc_spec np_facts mc_facts.

Lemma max_fold_ge (r : list Q) :
  forall x m,
    fold_left (fun m y => if Qlt_bool m y then y else m) r x = m ->
    (x <= m)%Q /\ Forall (fun y => (y <= m)%Q) r /\ (m = x \/ In m r).
Proof.
  induction r as [|y r IH]; intros x m H; simpl in H.
  - subst. split; [apply Qle_refl|]. split; [constructor | now left].
  - destruct (Qlt_bool x y) eqn:E.
    + destruct (IH y m H) as (Hy & Hr & Hin).
      apply Qlt_bool_iff in E. split; [|split].
      * apply Qlt_le_weak. exact (Qlt_le_trans _ _ _ E Hy).
      * constructor; assumption.
      * right. destruct Hin as [->|Hin]; [now left | now right].
    + destruct (IH x m H) as (Hx & Hr & Hin).
      apply Qlt_bool_false_iff in E. split; [exact Hx|]. split.
      * constructor; [exact (Qle_trans _ _ _ E Hx) | exact Hr].
      * destruct Hin as [->|Hin]; [now left | right; now right].
Qed.

(** The maximum is an element, and no element exceeds it. *)
Lemma max_spec (s : list Q) (m : Q) :
  np.max s = Ok m -> In m s /\ Forall (fun y => (y <= m)%Q) s.
Proof.
  destruct s as [|x r]; [discriminate|]. simpl. intros H; injection H as H.
  destruct (max_fold_ge r x m H) as (Hx & Hr & Hin). split.
  - destruct Hin as [->|Hin]; [now left | now right].
  - constructor; assumption.
Qed.

Lemma max_empty (s : list Q) : np.max s = Raise ValueError <-> s = [].
Proof. destruct s; simpl; split; intros H; try reflexivity; discriminate. Qed.

Lemma ratios_length (s : list Q) (m : Q) :
  List.length (ratios s m) = List.length s.
Proof. apply length_map. Qed.

Lemma count_ge_In (s : list Q) (m epsilon x : Q) :
  In x s -> ge (fdiv x m) (Fin epsilon) = true -> 1 <= count_ge s m epsilon.
Proof.
  unfold count_ge, ratios. induction s as [|y s IH]; intros Hin Hx;
    [destruct Hin|]. simpl. destruct Hin as [<-|Hin].
  - rewrite Hx. simpl. lia.
  - destruct (ge (fdiv y m) (Fin epsilon)); simpl; [lia | now apply IH].
Qed.

Lemma ratio_max (m epsilon : Q) :
  (0 < m)%Q -> (epsilon <= 1)%Q -> ge (fdiv m m) (Fin epsilon) = true.
Proof.
  intros Hm He. rewrite fdiv_finite by (intros E; rewrite E in Hm; discriminate).
  rewrite ge_Fin. apply negb_true_iff. cbn [less].
  apply Qlt_bool_false_iff.
  assert (m / m == 1)%Q as ->; [|exact He].
  apply Qmult_inv_r. intros E. rewrite E in Hm. discriminate.
Qed.

Lemma ratio_below (x m epsilon : Q) :
  (0 < m)%Q -> (x <= m)%Q -> (1 < epsilon)%Q ->
  np.lt (fdiv x m) (Fin epsilon) = true.
Proof.
  intros Hm Hx He. rewrite fdiv_finite by (intros E; rewrite E in Hm; discriminate).
  cbn [np.lt less]. apply Qlt_bool_iff.
  apply Qle_lt_trans with (y := 1%Q); [|exact He].
  apply Qle_shift_div_r; [exact Hm|]. now rewrite Qmult_1_l.
Qed.

(** Along a list on which [p] can only be lost, the elements that
    satisfy [p] are the first ones. *)
Lemma count_prefix (p : float -> bool) (l : list float) :
  (forall i j, i <= j -> j < List.length l ->
               p (nth j l NaN) = true -> p (nth i l NaN) = true) ->
  (forall k, k < count p l -> p (nth k l NaN) = true) /\
  (forall k, count p l <= k -> k < List.length l -> p (nth k l NaN) = false).
Proof.
  unfold count. induction l as [|a l IH]; intros Hmono.
  - simpl. split; intros; lia.
  - assert (Hl : forall i j, i <= j -> j < List.length l ->
                             p (nth j l NaN) = true -> p (nth i l NaN) = true).
    { intros i j Hij Hj. apply (Hmono (S i) (S j)); simpl; lia. }
    destruct (IH Hl) as [IH1 IH2]. simpl. destruct (p a) eqn:Ea; simpl.
    + split.
      * intros [|k] Hk; [exact Ea | apply IH1; lia].
      * intros [|k] Hk1 Hk2; [lia | apply IH2; lia].
    + assert (Hnone : forall k, k < List.length l -> p (nth k l NaN) = false).
      { intros k Hk. destruct (p (nth k l NaN)) eqn:E; [|reflexivity].
        rewrite <- Ea. symmetry.
        apply (Hmono 0 (S k)); simpl; [lia | lia | exact E]. }
      assert (Hz : List.length (filter p l) = 0).
      { clear -Hnone. induction l as [|b l IH]; [reflexivity|].
        assert (H0 : p b = false) by (apply (Hnone 0); simpl; lia).
        simpl. rewrite H0.
        apply IH. intros k Hk. apply (Hnone (S k)). simpl. lia. }
      rewrite Hz. split; [intros; lia|].
      intros [|k] _ Hk; [exact Ea | apply Hnone; simpl in Hk; lia].
Qed.

Lemma nth_ratios (s : list Q) (m : Q) (k : nat) :
  k < List.length s -> nth k (ratios s m) NaN = fdiv (nth k s 0%Q) m.
Proof.
  intros Hk. unfold ratios.
  rewrite (nth_indep _ NaN (fdiv 0 m)) by (now rewrite length_map).
  apply (map_nth (fun x => fdiv x m)).
Qed.

(** Dividing by a positive maximum keeps the order of the values. *)
Lemma ge_fdiv_mono (x y m epsilon : Q) :
  (0 < m)%Q -> (x <= y)%Q ->
  ge (fdiv x m) (Fin epsilon) = true -> ge (fdiv y m) (Fin epsilon) = true.
Proof.
  intros Hm Hxy.
  rewrite !fdiv_finite by (intros E; rewrite E in Hm; discriminate).
  rewrite !ge_Fin, !negb_true_iff. cbn [less].
  rewrite !Qlt_bool_false_iff. intros H.
  apply Qle_trans with (y := (x / m)%Q); [exact H|].
  apply Qmult_le_compat_r; [exact Hxy|].
  apply Qlt_le_weak, Qinv_lt_0_compat, Hm.
Qed.

Lemma Qmult_comm_eq (a b : Q) : (a * b)%Q = (b * a)%Q.
Proof.
  destruct a as [an ad], b as [bn bd]. unfold Qmult. simpl.
  now rewrite Z.mul_comm, Pos.mul_comm.
Qed.

Lemma fold_left_ext_in {A B : Type} (f g : A -> B -> A) (l : list B) :
  (forall a b, In b l -> f a b = g a b) ->
  forall a, fold_left f l a = fold_left g l a.
Proof.
  induction l as [|b l IH]; intros H a; simpl; [reflexivity|].
  rewrite (H a b (or_introl eq_refl)). apply IH.
  intros a' b' Hb'. apply H. now right.
Qed.

(** The entries of the product of a matrix and its transpose *)
Lemma mul_T_rows (a : Matrix) :
  exists P,
    mul a (T a) = Ok P /\
    nrows (x P) = nrows (x a) /\ ncols (x P) = nrows (x a) /\
    row_names P = row_names a /\ col_names P = row_names a /\
    rows (x P) =
      map (fun i =>
             map (fun j =>
                    fold_left
                      (fun acc k => (acc + item (x a) i k * item (x a) j k)%Q)
                      (seq 0 (ncols (x a))) 0%Q)
                 (seq 0 (nrows (x a))))
          (seq 0 (nrows (x a))).
Proof.
  rewrite mul_T. eexists. split; [reflexivity|]. cbn [x nrows ncols rows row_names col_names].
  repeat (split; [reflexivity|]).
  apply map_ext_in. intros i _. apply map_ext_in. intros j Hj.
  apply in_seq in Hj. apply fold_left_ext_in. intros acc k Hk.
  apply in_seq in Hk. rewrite item_T by lia. reflexivity.
Qed.

Lemma item_map_seq (f : nat -> nat -> Q) (n i j : nat) :
  nth j (nth i (map (fun i => map (fun j => f i j) (seq 0 n)) (seq 0 n)) []) 0%Q
  = if (i <? n) && (j <? n) then f i j else 0%Q.
Proof.
  destruct (Nat.ltb_spec i n) as [Hi|Hi].
  - rewrite (nth_map_seq _ _ _ _ Hi).
    destruct (Nat.ltb_spec j n) as [Hj|Hj]; simpl.
    + now rewrite (nth_map_seq _ _ _ _ Hj).
    + apply nth_overflow. now rewrite length_map, length_seq.
  - simpl. rewrite (nth_overflow _ []).
    + now destruct j.
    + now rewrite length_map, length_seq.
Qed.

Lemma get_null_proj_run (self : MonteCarlo) (nsing : Z) (w : World) (P : Matrix) :
  mul (cols_from (v (xtqx self)) nsing) (T (cols_from (v (xtqx self)) nsing))
  = Ok P ->
  get_null_proj self (Some nsing) w =
  (Ok P, {| files := files w;
            logged := (logged w ++ [forming nsing]) ++ [forming nsing] |}).
Proof.
  intros H. unfold get_null_proj, bindM, ret, lift, log. now rewrite H.
Qed.

End mc_more.

(** ** More on [write_psts] *)

Module write_more.
Import pystr pst en mc mc_spec frame_facts name_facts write_facts.

Lemma series_get_None (s : Series) (c : string) :
  ~ In c (labels s) -> series_get s c = None.
Proof.
  induction s as [|[k v] s IH]; simpl; intros H; [reflexivity|].
  destruct (String.eqb_spec k c) as [->|Hne]; [tauto|].
  apply IH. tauto.
Qed.

(** The assignment leaves the rows alone whose label the series lacks. *)
Lemma loc_set_get_other (frame value frame' : Series) (c : string) :
  loc_set frame value = Ok frame' -> ~ In c (labels value) ->
  series_get frame' c = series_get frame c.
Proof.
  unfold loc_set. destruct (forallb _ _); [|discriminate].
  intros H; injection H as <-. intros Hc.
  induction frame as [|[k old] frame IH]; simpl; [reflexivity|].
  destruct (String.eqb_spec k c) as [->|Hne].
  - rewrite (series_get_None _ _ Hc). simpl. now rewrite String.eqb_refl.
  - destruct (series_get value k); simpl;
      (destruct (String.eqb_spec k c); [contradiction | exact IH]).
Qed.

Lemma same_outside_refl (pc oc : list string) (p : Pst) : same_outside pc oc p p.
Proof. repeat split. Qed.

Lemma realize_same_outside (self : MonteCarlo) (par_en : Ensemble)
    (p0 p q : Pst) (i : nat) :
  same_outside (columns par_en) (columns (obsensemble self)) p0 p ->
  realize self par_en p i = Ok q ->
  same_outside (columns par_en) (columns (obsensemble self)) p0 q.
Proof.
  intros (Lp & Lo & Gp & Go). unfold realize, iloc.
  destruct (nth_error (values par_en) i) as [row|]; [|discriminate].
  cbn [bind].
  destruct (loc_set (parameter_data p) _) as [pd| |] eqn:Hpd; try discriminate.
  cbn [bind].
  assert (Gpd : forall c, ~ In c (columns par_en) ->
                          series_get pd c = series_get (parameter_data p0) c).
  { intros c Hc. rewrite (loc_set_get_other _ _ _ c Hpd); [now apply Gp|].
    intros Hin. apply Hc. exact (labels_combine _ _ _ Hin). }
  destruct (fst (en.shape (obsensemble self)) =? num_reals self).
  - destruct (nth_error (values (obsensemble self)) i) as [orow|];
      [|discriminate].
    cbn [bind].
    destruct (loc_set (observation_data p) _) as [od| |] eqn:Hod;
      try discriminate.
    cbn [bind]. intros H; injection H as <-.
    unfold same_outside. cbn [parameter_data observation_data].
    rewrite (loc_set_labels _ _ _ Hpd), (loc_set_labels _ _ _ Hod).
    split; [exact Lp|]. split; [exact Lo|]. split; [exact Gpd|].
    intros c Hc. rewrite (loc_set_get_other _ _ _ c Hod); [now apply Go|].
    intros Hin. apply Hc. exact (labels_combine _ _ _ Hin).
  - intros H; injection H as <-.
    unfold same_outside. cbn [parameter_data observation_data].
    rewrite (loc_set_labels _ _ _ Hpd). auto.
Qed.

(** What is kept by every turn holds of every control file written. *)
Lemma for_in_write_inv (self : MonteCarlo) (prefix : string)
    (par_en : Ensemble) (I : Pst -> Prop) :
  (forall p i q, I p -> realize self par_en p i = Ok q -> I q) ->
  forall (l : list nat) (p p' : Pst) (w w' : World),
    I p ->
    for_in l (write_pst self prefix par_en) p w = (Ok p', w') ->
    exists written,
      files w' = files w ++ written /\
      Forall (fun nq : string * Pst => I (snd nq)) written.
Proof.
  intros Hstep. induction l as [|i l IH]; intros p p' w w' Hp.
  - simpl. unfold ret. intros H; injection H as <- <-.
    exists []. split; [now rewrite app_nil_r | constructor].
  - cbn [for_in]. unfold bindM at 1. rewrite write_pst_run.
    destruct (realize self par_en p i) as [q| |] eqn:Hq; try discriminate.
    intros Hrun. destruct (IH q p' _ w' (Hstep p i q Hp Hq) Hrun)
      as (written & Hfiles & Hall).
    exists ((pst_name prefix i, q) :: written). split.
    + rewrite Hfiles. cbn [files]. now rewrite <- app_assoc.
    + constructor; [exact (Hstep p i q Hp Hq) | exact Hall].
Qed.

(** *** Computations that only append *)

Lemma extend_nothing (w : World) : extend nothing w = w.
Proof. now destruct w. Qed.










End write_more.

(** ** The readers of record and residual files *)

Module recfile_facts.
Import pystr pystr_facts pst_formats recfile recfile_spec normal_facts.

Lemma startswith_app (needle s : string) :
  startswith needle s = true -> exists b, s = (needle ++ b)%string.
Proof.
  revert s; induction needle as [|a n IH]; intros s H; simpl in *.
  - now exists s.
  - destruct s as [|c s]; [discriminate|].
    apply andb_true_iff in H as [Hc Hs]. apply Ascii.eqb_eq in Hc as ->.
    destruct (IH s Hs) as [b ->]. now exists b.
Qed.

Lemma occurs_in_app (needle s : string) :
  occurs_in needle s = true -> exists a b, s = (a ++ needle ++ b)%string.
Proof.
  induction s as [|c s IH]; simpl; intros H.
  - rewrite orb_false_r in H. destruct (startswith_app _ _ H) as [b Hb].
    now exists "", b.
  - apply orb_true_iff in H as [H|H].
    + destruct (startswith_app _ _ H) as [b Hb]. now exists "", b.
    + destruct (IH H) as (a & b & ->). now exists (String c a), b.
Qed.

(** *** Counting the tokens of a line *)

Lemma split_ws_from_some (s cur : string) :
  cur <> "" -> 1 <= List.length (split_ws_from cur s).
Proof.
  revert cur; induction s as [|c s IH]; intros cur Hcur; simpl.
  - destruct cur; [contradiction | simpl; lia].
  - destruct (is_space c).
    + destruct cur; [contradiction | simpl; lia].
    + apply IH. destruct cur; discriminate.
Qed.

Lemma append_assoc (a b c : string) :
  ((a ++ b) ++ c)%string = (a ++ (b ++ c))%string.
Proof. induction a as [|x a IH]; simpl; [reflexivity | now rewrite IH]. Qed.

Lemma append_nil_r (a : string) : (a ++ "")%string = a.
Proof. induction a as [|x a IH]; simpl; [reflexivity | now rewrite IH]. Qed.

Lemma append_nonempty (a b : string) : b <> "" -> (a ++ b)%string <> "".
Proof. destruct a; simpl; [auto | discriminate]. Qed.

Lemma split_ws_from_more (s : string) :
  forall x cur,
    List.length (split_ws_from x s)
    <= List.length (split_ws_from (cur ++ x) s).
Proof.
  induction s as [|c s IH]; intros x cur; simpl.
  - destruct x as [|a x]; [simpl; lia|].
    destruct (cur ++ String a x)%string eqn:E; [|simpl; lia].
    exfalso. revert E. now apply append_nonempty.
  - destruct (is_space c).
    + destruct x as [|a x].
      * destruct (cur ++ "")%string; simpl; lia.
      * destruct (cur ++ String a x)%string eqn:E; [|simpl; lia].
        exfalso. revert E. now apply append_nonempty.
    + rewrite append_assoc. apply IH.
Qed.

Lemma split_ws_from_cur (s cur : string) :
  List.length (split_ws_from "" s) <= List.length (split_ws_from cur s).
Proof.
  rewrite <- (append_nil_r cur) at 1. apply split_ws_from_more.
Qed.

Lemma split_ws_from_skip (a s cur : string) :
  List.length (split_ws_from "" s) <= List.length (split_ws_from cur (a ++ s)).
Proof.
  revert cur; induction a as [|c a IH]; intros cur; simpl.
  - apply split_ws_from_cur.
  - destruct (is_space c).
    + destruct cur; simpl; [apply IH|]. specialize (IH ""). lia.
    + apply IH.
Qed.

Lemma split_ws_lstrip (s : string) : split_ws (lstrip s) = split_ws s.
Proof.
  unfold split_ws. induction s as [|c s IH]; simpl; [reflexivity|].
  destruct (is_space c) eqn:E; [exact IH|]. simpl. now rewrite E.
Qed.

Lemma split_ws_from_rstrip (s : string) :
  forall cur, split_ws_from cur (rstrip s) = split_ws_from cur s.
Proof.
  induction s as [|c s IH]; intros cur; [reflexivity|].
  rewrite rstrip_cons. destruct (rstrip s) as [|c' r'] eqn:E.
  - destruct (is_space c) eqn:Ec; simpl; rewrite Ec.
    + rewrite <- (IH ""). now destruct cur.
    + rewrite <- IH. reflexivity.
  - simpl. destruct (is_space c); [|apply IH].
    rewrite <- (IH ""). reflexivity.
Qed.

Lemma split_ws_strip (s : string) : split_ws (strip s) = split_ws s.
Proof.
  unfold strip, split_ws at 1. rewrite split_ws_from_rstrip.
  apply split_ws_lstrip.
Qed.

Lemma split_ws_from_lower (s : string) :
  forall cur,
    split_ws_from (lower cur) (lower s) = map lower (split_ws_from cur s).
Proof.
  induction s as [|c s IH]; intros cur; simpl.
  - now destruct cur.
  - rewrite is_space_lower_char. destruct (is_space c).
    + destruct cur; simpl; [exact (IH "")|]. f_equal. exact (IH "").
    + rewrite <- IH, lower_app. reflexivity.
Qed.

(** A line that holds "contribution to phi" has at least three tokens. *)
Lemma contributes_tokens (line : string) :
  contributes line = true -> 3 <= List.length (split_ws (strip line)).
Proof.
  unfold contributes. intros H.
  rewrite split_ws_strip.
  rewrite <- (length_map lower). unfold split_ws.
  rewrite <- (split_ws_from_lower line "").
  destruct (occurs_in_app _ _ H) as (a & b & ->).
  etransitivity; [|apply split_ws_from_skip].
  simpl. pose proof (split_ws_from_some b "phi"). 
  assert (1 <= List.length (split_ws_from "phi" b)) by (apply H0; discriminate).
  lia.
Qed.

Lemma getitem_neg_ok {A : Type} (l : list A) (k : nat) :
  1 <= k -> k <= List.length l -> exists x, getitem_neg l k = Ok x.
Proof.
  intros Hk Hl. unfold getitem_neg, getitem.
  destruct (nth_error (rev l) (k - 1)) eqn:E; [eauto|].
  apply nth_error_None in E. rewrite length_rev in E. lia.
Qed.

(** *** The loops of [get_phi_comps_from_recfile] *)

Lemma dict_set_fresh (d : list (nat * contributions)) (k : nat)
    (v : contributions) :
  ~ In k (map fst d) -> dict_set Nat.eqb d k v = d ++ [(k, v)].
Proof.
  induction d as [|[k' v'] d IH]; simpl; intros H; [reflexivity|].
  destruct (Nat.eqb_spec k' k) as [->|Hne]; [tauto|].
  rewrite IH; [reflexivity | tauto].
Qed.

(** The iterations are numbered from 1 in the order of the reports. *)
Lemma phi_lines_keys (float : string -> option Q) (f : file) :
  forall inside iiter iters result,
    map fst iters = seq 1 (iiter - 1) -> 1 <= iiter ->
    phi_lines float f inside iiter iters = Ok result ->
    exists n, map fst result = seq 1 n.
Proof.
  induction f as [|line f IH]; intros inside iiter iters result Hk Hi; simpl.
  - intros H; injection H as <-. eauto.
  - destruct (String.eqb line ""); [intros H; injection H as <-; eauto|].
    destruct inside as [c|].
    + destruct (contributes line); cbn [negb].
      * destruct (getitem_neg _ 1) as [last| |]; try discriminate. cbn [bind].
        destruct (float last) as [val|]; [|discriminate].
        destruct (getitem_neg _ 3) as [g| |]; try discriminate. cbn [bind].
        now apply IH.
      * apply IH; [|lia].
        rewrite dict_set_fresh.
        -- rewrite map_app, Hk. simpl.
           replace (iiter + 1 - 1) with (S (iiter - 1)) by lia.
           rewrite seq_S. f_equal. f_equal. lia.
        -- rewrite Hk, in_seq. lia.
    + destruct (starts_phi line); now apply IH.
Qed.

(** The only exception of the loops is the [ValueError] of [float]. *)
Lemma phi_lines_raises (float : string -> option Q) (f : file) :
  forall inside iiter iters e,
    phi_lines float f inside iiter iters = Raise e -> e = ValueError.
Proof.
  induction f as [|line f IH]; intros inside iiter iters e; simpl;
    [discriminate|].
  destruct (String.eqb line ""); [discriminate|].
  destruct inside as [c|].
  - destruct (contributes line) eqn:Ec; cbn [negb]; [|apply IH].
    pose proof (contributes_tokens line Ec) as Hlen.
    destruct (getitem_neg_ok (split_ws (strip line)) 1) as [last ->]; try lia.
    destruct (getitem_neg_ok (split_ws (strip line)) 3) as [g ->]; try lia.
    cbn [bind]. destruct (float last); [apply IH|].
    intros H; injection H as <-. reflexivity.
  - destruct (starts_phi line); apply IH.
Qed.

Lemma phi_lines_total (float : string -> option Q) (f : file) :
  forall inside iiter iters,
    phi_lines float f inside iiter iters <> OutOfFuel.
Proof.
  induction f as [|line f IH]; intros inside iiter iters; simpl;
    [discriminate|].
  destruct (String.eqb line ""); [discriminate|].
  destruct inside as [c|].
  - destruct (contributes line); cbn [negb]; [|apply IH].
    destruct (getitem_neg _ 1) as [last| |] eqn:E1; cbn [bind]; try discriminate.
    + destruct (float last); [|discriminate].
      destruct (getitem_neg _ 3) as [g| |] eqn:E3; cbn [bind]; try discriminate.
      * apply IH.
      * unfold getitem_neg, getitem in E3. destruct (nth_error _ _); discriminate.
    + unfold getitem_neg, getitem in E1. destruct (nth_error _ _); discriminate.
  - destruct (starts_phi line); apply IH.
Qed.

Lemma phi_lines_plain (float : string -> option Q) (pre f : file)
    (iiter : nat) (iters : list (nat * contributions)) :
  Forall plain_line pre ->
  phi_lines float (pre ++ f) None iiter iters =
  phi_lines float f None iiter iters.
Proof.
  induction 1 as [|line pre [Hne Hs] Hpre IH]; [reflexivity|]. simpl.
  apply String.eqb_neq in Hne. now rewrite Hne, Hs.
Qed.

Lemma phi_lines_block (float : string -> option Q) (block : file)
    (gvs : list (string * Q)) (f : file) (iiter : nat)
    (iters : list (nat * contributions)) :
  Forall2 (contribution_line float) block gvs ->
  forall c,
    phi_lines float (block ++ f) (Some c) iiter iters =
    phi_lines float f (Some (dict_of c gvs)) iiter iters.
Proof.
  induction 1 as [|line gv block gvs Hl Hrest IH]; intros c; [reflexivity|].
  destruct Hl as (Hne & Hc & last & g & Hlast & Hval & Hg & Hgroup).
  simpl. apply String.eqb_neq in Hne. rewrite Hne, Hc. cbn [negb].
  rewrite Hlast. cbn [bind]. rewrite Hval, Hg. cbn [bind].
  rewrite <- Hgroup. apply IH.
Qed.

Lemma phi_lines_report (float : string -> option Q) (r : report) (f : file)
    (iiter : nat) (iters : list (nat * contributions)) :
  report_ok float r -> ~ In iiter (map fst iters) ->
  phi_lines float (report_lines r ++ f) None iiter iters =
  phi_lines float f None (iiter + 1)
    (iters ++ [(iiter, dict_of [] (rep_values r))]).
Proof.
  intros (Hpre & Hne & Hstart & Hblock & Hsne & Hstop) Hfresh.
  unfold report_lines. rewrite <- app_assoc, (phi_lines_plain _ _ _ _ _ Hpre).
  cbn [app phi_lines]. apply String.eqb_neq in Hne. rewrite Hne, Hstart.
  rewrite <- app_assoc, (phi_lines_block _ _ _ _ _ _ Hblock).
  cbn [app phi_lines]. apply String.eqb_neq in Hsne. rewrite Hsne, Hstop.
  cbn [negb]. now rewrite dict_set_fresh.
Qed.

Lemma phi_lines_reports (float : string -> option Q) (rs : list report) :
  Forall (report_ok float) rs ->
  forall f iiter iters,
    map fst iters = seq 1 (iiter - 1) -> 1 <= iiter ->
    phi_lines float (concat (map report_lines rs) ++ f) None iiter iters =
    phi_lines float f None (iiter + List.length rs)
      (iters ++ iterations iiter rs).
Proof.
  induction 1 as [|r rs Hr Hrs IH]; intros f iiter iters Hk Hi.
  - cbn. now rewrite Nat.add_0_r, app_nil_r.
  - cbn [map concat]. rewrite <- app_assoc, phi_lines_report; [|exact Hr|].
    + rewrite IH; [| |lia].
      * unfold iterations. cbn [List.length seq map combine].
        rewrite <- app_assoc. cbn [app].
        replace (iiter + 1) with (S iiter) by lia.
        now replace (S iiter + List.length rs)
          with (iiter + S (List.length rs)) by lia.
      * rewrite map_app, Hk. cbn [map fst].
        replace (iiter + 1 - 1) with (S (iiter - 1)) by lia.
        rewrite seq_S. do 2 f_equal. lia.
    + rewrite Hk, in_seq. lia.
Qed.

(** *** The loop of [read_resfile] *)

Lemma find_header_skip (resfile : string) (pre f : file) :
  Forall before_header pre ->
  find_header resfile (pre ++ f) = find_header resfile f.
Proof.
  induction 1 as [|line pre [Hne Hn] Hpre IH]; [reflexivity|]. simpl.
  apply String.eqb_neq in Hne. now rewrite Hne, Hn.
Qed.

End recfile_facts.

(** ** [smp_to_ins] and the instruction file it writes *)

Module smp_facts.
Import pystr pystr_facts pst_utils pst_utils_spec pst_formats smp.
Import scanner_facts parser_facts parser_more normal_facts recfile_facts.

Lemma digits_app (a b : string) :
  digits (a ++ b) = digits a && digits b.
Proof.
  induction a as [|c a IH]; simpl; [reflexivity|].
  now rewrite IH, andb_assoc.
Qed.

Lemma uint_digits (d : Decimal.uint) :
  digits (NilEmpty.string_of_uint d) = true.
Proof. induction d; simpl; auto. Qed.

Lemma format_d_digits (n : nat) : digits (format_d n) = true.
Proof. apply uint_digits. Qed.

Lemma two_digits_digits (n : nat) : digits (two_digits n) = true.
Proof.
  unfold two_digits. destruct (n <? 10); [|apply format_d_digits].
  simpl. apply format_d_digits.
Qed.

Lemma strftime_digits (x : datetime) : digits (strftime_dmY x) = true.
Proof.
  unfold strftime_dmY.
  now rewrite !digits_app, !two_digits_digits, format_d_digits.
Qed.

(** *** The loop over the groups keeps the rows in order *)

Lemma positions_name (nm : string) (df : list row) :
  forall k i,
    In i (positions nm df k) ->
    k <= i /\ exists r, nth_error df (i - k) = Some r /\ name r = Str nm.
Proof.
  induction df as [|r df IH]; intros k i Hi; simpl in Hi; [contradiction|].
  assert (Hrest : In i (positions nm df (S k)) ->
                  k <= i /\ exists r', nth_error (r :: df) (i - k) = Some r'
                                       /\ name r' = Str nm).
  { intros H. destruct (IH _ _ H) as (Hle & r' & Hr' & Hn). split; [lia|].
    exists r'. split; [|exact Hn].
    replace (i - k) with (S (i - S k)) by lia. exact Hr'. }
  destruct (name r) as [nm'|] eqn:En; [|now apply Hrest].
  destruct (String.eqb_spec nm' nm) as [->|Hne]; [|now apply Hrest].
  destruct Hi as [<-|Hi]; [|now apply Hrest].
  split; [lia|]. exists r. rewrite Nat.sub_diag. now split.
Qed.

Lemma set_row_names (i : nat) (oname ins_str : string) (df : list row) :
  map name (set_row i oname ins_str df) = map name df.
Proof.
  revert i; induction df as [|r df IH]; intros [|i]; simpl; try reflexivity.
  now rewrite IH.
Qed.

Lemma set_row_ok (df : list row) :
  forall (i : nat) (nm sfx : string) (r : row),
    Forall row_ok df ->
    nth_error df i = Some r -> name r = Str nm -> digits sfx = true ->
    String.length (nm ++ "_" ++ sfx) <= 20 ->
    Forall row_ok
      (set_row i (nm ++ "_" ++ sfx) (ins_string (nm ++ "_" ++ sfx)) df).
Proof.
  induction df as [|r0 df IH]; intros i nm sfx r Hall Hr Hn Hd Hlen;
    [destruct i; discriminate|].
  inversion Hall as [|? ? H0 Hrest]; subst.
  destruct i as [|i]; simpl in *.
  - injection Hr as ->. constructor; [|exact Hrest].
    right. exists (nm ++ "_" ++ sfx)%string, nm, sfx. simpl. auto 7.
  - constructor; [exact H0|]. eapply IH; eassumption.
Qed.

Lemma set_rows_ok (nm : string) (idxs : list nat) :
  forall (onames : list string) (df : list row),
    Forall row_ok df ->
    Forall2 (group_ok nm (map name df)) idxs onames ->
    Forall row_ok (set_rows idxs onames df) /\
    map name (set_rows idxs onames df) = map name df.
Proof.
  induction idxs as [|i idxs IH]; intros onames df Hall Hpairs.
  - inversion Hpairs; subst. now split.
  - inversion Hpairs as [|? oname ? onames' Hi Hrest]; subst.
    destruct Hi as (Hname & Hlen & sfx & Hd & ->).
    rewrite nth_error_map in Hname.
    destruct (nth_error df i) as [r|] eqn:Hr; [|discriminate].
    injection Hname as Hname. cbn [set_rows].
    fold (ins_string (nm ++ "_" ++ sfx)).
    destruct (IH onames'
                (set_row i (nm ++ "_" ++ sfx)%string
                   (ins_string (nm ++ "_" ++ sfx)) df)) as [Hok Hnames].
    + eapply set_row_ok; eassumption.
    + now rewrite set_row_names.
    + split; [exact Hok|]. now rewrite Hnames, set_row_names.
Qed.

Lemma onames_of_ok (nm : string) (idxs : list nat) (df : list row) :
  Forall (fun i => nth_error (map name df) i = Some (Str nm)) idxs ->
  forallb (fun x => String.length x <=? 20) (onames_of nm idxs df) = true ->
  Forall2 (group_ok nm (map name df)) idxs (onames_of nm idxs df).
Proof.
  intros Hidx Hlen. rewrite forallb_forall in Hlen.
  assert (Hl : forall x, In x (onames_of nm idxs df) -> String.length x <= 20).
  { intros x Hx. apply Nat.leb_le. now apply Hlen. }
  clear Hlen. revert Hl. unfold onames_of.
  destruct (String.length nm <=? 11).
  - induction Hidx as [|i idxs Hi Hrest IH]; intros Hl; simpl; constructor.
    + split; [exact Hi|]. split; [apply Hl; now left|].
      destruct (nth_error df i) as [r|].
      * exists (strftime_dmY (date r)). split; [apply strftime_digits | reflexivity].
      * exists "". split; [reflexivity|]. now rewrite append_nil_r.
    + apply IH. intros x Hx. apply Hl. now right.
  - assert (H : forall k,
               (forall x,
                   In x (map (fun i => (nm ++ "_" ++ format_d i)%string)
                             (seq k (List.length idxs))) ->
                   String.length x <= 20) ->
               Forall2 (group_ok nm (map name df)) idxs
                 (map (fun i => (nm ++ "_" ++ format_d i)%string)
                      (seq k (List.length idxs)))).
    { induction Hidx as [|i idxs Hi Hrest IH]; intros k Hl; simpl; constructor.
      - split; [exact Hi|]. split; [apply Hl; now left|].
        exists (format_d k). split; [apply format_d_digits | reflexivity].
      - apply IH. intros x Hx. apply Hl. now right. }
    apply H.
Qed.

Lemma positions_names (nm : string) (df : list row) :
  Forall (fun i => nth_error (map name df) i = Some (Str nm))
         (positions nm df 0).
Proof.
  apply Forall_forall. intros i Hi.
  destruct (positions_name nm df 0 i Hi) as (_ & r & Hr & Hn).
  rewrite Nat.sub_0_r in Hr. rewrite nth_error_map, Hr. simpl. now rewrite Hn.
Qed.

Lemma name_groups_ok (df0 : list row) (gs : list (string * list nat)) :
  Forall (fun g => Forall (fun i => nth_error (map name df0) i
                                    = Some (Str (fst g))) (snd g)) gs ->
  forall df df',
    Forall row_ok df -> map name df = map name df0 ->
    name_groups gs df = Returns df' ->
    Forall row_ok df' /\ map name df' = map name df0.
Proof.
  induction 1 as [|g gs Hg Hgs IH]; intros df df' Hok Hnames; simpl.
  - intros H; injection H as <-. now split.
  - unfold name_group.
    destruct (forallb _ (onames_of (fst g) (snd g) df)) eqn:Hlen;
      [|discriminate].
    rewrite <- Hnames in Hg.
    destruct (set_rows_ok (fst g) (snd g) _ df Hok
                (onames_of_ok _ _ _ Hg Hlen)) as [Hok' Hnames'].
    apply IH; [exact Hok' | congruence].
Qed.

Lemma groups_names (df : list row) :
  Forall (fun g => Forall (fun i => nth_error (map name df) i
                                    = Some (Str (fst g))) (snd g))
         (groups df).
Proof.
  unfold groups. apply Forall_forall. intros g Hg.
  apply in_map_iff in Hg as [nm [<- _]]. apply positions_names.
Qed.

(** *** The text written and its lines *)

Lemma write_ins_done (df : list row) :
  forall text text',
    Forall row_ok df ->
    write_ins df text = (text', true) ->
    exists onames,
      Forall2 named df onames /\
      text' = (text ++ text_of (map (fun on => ins_string on ++ nl) onames))%string.
Proof.
  induction df as [|r df IH]; intros text text' Hok; simpl.
  - intros H; injection H as <-. exists []. split; [constructor|].
    simpl. now rewrite append_nil_r.
  - inversion Hok as [|? ? Hr Hrest]; subst.
    destruct (ins_strings r) as [ins|] eqn:Hins; [|discriminate].
    intros Hw. destruct (IH _ _ Hrest Hw) as (onames & Hall & ->).
    destruct Hr as [[Hnone _]|[oname Hnamed]]; [congruence|].
    exists (oname :: onames). split; [now constructor|].
    destruct Hnamed as (nm & sfx & _ & _ & _ & _ & _ & Hi).
    assert (ins = ins_string oname) as -> by congruence.
    rewrite (append_assoc text). reflexivity.
Qed.

Lemma contains_app (c : ascii) (a b : string) :
  contains c (a ++ b) = contains c a || contains c b.
Proof.
  induction a as [|x a IH]; simpl; [reflexivity|].
  now rewrite IH, orb_assoc.
Qed.

Lemma plain_app (a b : string) : plain (a ++ b) = plain a && plain b.
Proof.
  induction a as [|x a IH]; simpl; [reflexivity|].
  now rewrite IH, andb_assoc.
Qed.

Lemma digit_plain (c : ascii) : digit c = true -> plain_char c = true.
Proof. destruct c as [[] [] [] [] [] [] [] []]; simpl; intros H; try reflexivity; discriminate H. Qed.

Lemma digits_plain (s : string) : digits s = true -> plain s = true.
Proof.
  induction s as [|c s IH]; simpl; [reflexivity|].
  intros H. apply andb_true_iff in H as [Hc Hs].
  now rewrite (digit_plain c Hc), (IH Hs).
Qed.

Lemma plain_contains (s : string) :
  plain s = true ->
  contains "!" s = false /\ contains "~" s = false
  /\ contains (ascii_of_nat 10) s = false.
Proof.
  induction s as [|c s IH]; simpl; [auto|].
  intros H. apply andb_true_iff in H as [Hc Hs].
  destruct (IH Hs) as (H1 & H2 & H3). rewrite H1, H2, H3.
  unfold plain_char in Hc.
  apply andb_true_iff in Hc as [Hc Hc3]. apply andb_true_iff in Hc as [Hc1 Hc2].
  apply negb_true_iff in Hc1, Hc2, Hc3. now rewrite Hc1, Hc2, Hc3.
Qed.

Lemma named_plain (r : row) (oname : string) :
  match name r with Str nm => plain nm = true | NaN_cell => True end ->
  named r oname -> plain oname = true /\ contains "_" oname = true.
Proof.
  intros Hp (nm & sfx & Hn & Hd & -> & _). rewrite Hn in Hp. split.
  - rewrite !plain_app, Hp, (digits_plain _ Hd). reflexivity.
  - rewrite contains_app. simpl. apply orb_true_r.
Qed.

Lemma lines_from_line (l : string) :
  forall cur rest,
    contains (ascii_of_nat 10) l = false ->
    lines_from cur (l ++ nl ++ rest) = (cur ++ l ++ nl)%string :: lines_from "" rest.
Proof.
  induction l as [|c l IH]; intros cur rest H.
  - reflexivity.
  - simpl in H. apply orb_false_iff in H as [Hc Hl].
    cbn [append lines_from]. rewrite Hc, (IH _ _ Hl).
    now rewrite append_assoc.
Qed.

Lemma lines_of_lines (ls : list string) :
  Forall (fun l => contains (ascii_of_nat 10) l = false) ls ->
  lines_of (text_of (map (fun l => l ++ nl)%string ls))
  = map (fun l => l ++ nl)%string ls.
Proof.
  unfold lines_of. induction 1 as [|l ls Hl Hls IH]; [reflexivity|].
  cbn [map text_of]. rewrite append_assoc, (lines_from_line l "" _ Hl).
  now rewrite IH.
Qed.

Lemma lower_underscore (s : string) :
  contains "_" s = true -> String.eqb (lower s) "dum" = false.
Proof.
  intros H. apply String.eqb_neq. intros E.
  assert (Hl : contains "_" (lower s) = true).
  { clear E. induction s as [|c s IH]; [discriminate|]. simpl in *.
    apply orb_true_iff in H as [H|H].
    - apply Ascii.eqb_eq in H as ->. reflexivity.
    - rewrite (IH H). apply orb_true_r. }
  rewrite E in Hl. discriminate.
Qed.

Lemma rstrip_bang (a : string) :
  rstrip (a ++ String "!" nl) = (a ++ "!")%string.
Proof.
  induction a as [|c a IH]; [reflexivity|].
  cbn [append]. rewrite rstrip_cons, IH.
  destruct (a ++ "!")%string eqn:E; [|reflexivity].
  destruct a; discriminate.
Qed.

(** The instruction line of a plain name gives that name back. *)
Lemma ins_string_line (oname : string) :
  plain oname = true -> contains "_" oname = true ->
  ins_line "~" (ins_string oname ++ nl) [oname].
Proof.
  intros Hp Hu. destruct (plain_contains _ Hp) as (Hbang & Htilde & Hnl).
  unfold ins_line.
  assert (Hc : contains (marker_char "~") (ins_string oname ++ nl) = false).
  { unfold ins_string. change (marker_char "~") with "~"%char.
    rewrite !contains_app, Htilde. reflexivity. }
  rewrite Hc.
  assert (Hs : strip (ins_string oname ++ nl) = ins_string oname).
  { unfold strip, ins_string.
    change (lstrip (("l1 w w w  !" ++ oname ++ "!") ++ nl))
      with (("l1 w w w  !" ++ oname ++ "!") ++ nl)%string.
    rewrite !append_assoc.
    change ("!" ++ nl)%string with (String "!" nl).
    rewrite <- append_assoc, rstrip_bang. now rewrite append_assoc. }
  rewrite Hs.
  change (ins_string oname)
    with ("l1 w w w  " ++ String "!" (oname ++ String "!" ""))%string.
  rewrite (scan_prefix_token "l1 w w w  " "!" "!" oname "" eq_refl eq_refl Hbang).
  unfold keep_token. rewrite (lower_underscore _ Hu). reflexivity.
Qed.

(** *** What a call that returns has done *)

Lemma smp_to_ins_returns
    (smp_to_dataframe : filesystem -> string -> outcome (list row))
    (fs : filesystem) (smp_filename : string) (ins_filename : option string)
    (fs' : filesystem) (df : list row) :
  smp_to_ins smp_to_dataframe fs smp_filename ins_filename
  = (fs', Returns df) ->
  exists loaded onames,
    smp_to_dataframe fs smp_filename = Returns loaded
    /\ map name df = map name loaded
    /\ Forall2 named df onames
    /\ fs' = (ins_path smp_filename ins_filename,
              lines_of (("pif ~" ++ nl)
                          ++ text_of (map (fun on => ins_string on ++ nl)
                                          onames))%string) :: fs.
Proof.
  unfold smp_to_ins.
  destruct (smp_to_dataframe fs smp_filename) as [loaded|e|];
    try discriminate.
  set (df0 := map _ loaded).
  destruct (name_groups (groups df0) df0) as [df1|e|] eqn:Hg;
    try discriminate.
  destruct (write_ins df1 _) as [text done] eqn:Hw.
  destruct done; [|discriminate]. intros H; injection H as <- <-.
  assert (Hok0 : Forall row_ok df0).
  { unfold df0. apply Forall_forall. intros r Hr.
    apply in_map_iff in Hr as [r0 [<- _]]. left. now split. }
  destruct (name_groups_ok df0 (groups df0) (groups_names df0) df0 df1
              Hok0 eq_refl Hg) as [Hok1 Hn1].
  destruct (write_ins_done df1 _ _ Hok1 Hw) as (onames & Hall & ->).
  exists loaded, onames. split; [reflexivity|]. split; [|split].
  - rewrite Hn1. unfold df0. rewrite map_map. reflexivity.
  - exact Hall.
  - reflexivity.
Qed.

Lemma named_lines (df : list row) (onames : list string) :
  plain_names df -> Forall2 named df onames ->
  Forall (fun on => plain on = true /\ contains "_" on = true) onames.
Proof.
  intros Hp Hall. induction Hall as [|r on df onames Hn Hrest IH].
  - constructor.
  - inversion Hp as [|? ? Hr Hdf]; subst. constructor.
    + exact (named_plain r on Hr Hn).
    + now apply IH.
Qed.

Lemma ins_file_lines (onames : list string) :
  Forall (fun on => plain on = true /\ contains "_" on = true) onames ->
  lines_of (("pif ~" ++ nl)
              ++ text_of (map (fun on => ins_string on ++ nl) onames))%string
  = ("pif ~" ++ nl)%string :: map (fun on => ins_string on ++ nl)%string onames.
Proof.
  intros Hall.
  pose proof (lines_of_lines ("pif ~" :: map ins_string onames)) as H.
  cbn [map text_of] in H. rewrite map_map in H. apply H.
  constructor; [reflexivity|].
  apply Forall_forall. intros l Hl. apply in_map_iff in Hl as [on [<- Hon]].
  rewrite Forall_forall in Hall. destruct (Hall on Hon) as [Hp _].
  destruct (plain_contains _ Hp) as (_ & _ & Hnl).
  unfold ins_string. rewrite !contains_app, Hnl. reflexivity.
Qed.

Lemma ins_lines_written (onames : list string) :
  Forall (fun on => plain on = true /\ contains "_" on = true) onames ->
  ins_lines "~" (map (fun on => ins_string on ++ nl)%string onames) []
  = Ok onames.
Proof.
  intros Hall.
  rewrite (ins_lines_all "~" _ (map (fun on => [on]) onames)).
  - cbn [app]. f_equal. induction onames as [|on l IH]; [reflexivity|].
    cbn [map concat app]. f_equal. apply IH. now inversion Hall.
  - induction Hall as [|on l [Hp Hu] Hl IH]; constructor.
    + now apply ins_string_line.
    + exact IH.
Qed.

End smp_facts.

(** * Further properties of pst_utils.py *)

Import pst_utils_spec pst_formats recfile recfile_spec mc_spec examples_more.
Import scanner_more normal_facts parser_more mc_more write_more recfile_facts.

(** X1. Whatever the line, no token that [parse_ins_string] returns is
    "dum" in any case, and every token is a slice of the line. *)
Theorem parse_ins_string_returns_tokens (s : string) (toks : list string) :
  parse_ins_string s = Ok toks ->
  Forall (fun tok => String.eqb (lower tok) "dum" = false
                     /\ exists i j, tok = slice i j s) toks.
Proof.
  intros H. exact (parse_ins_loop_tokens _ s 0 [] toks (Forall_nil _) H).
Qed.

Lemma parse_ins_string_returns_tokens_witness :
  Forall (fun tok => String.eqb (lower tok) "dum" = false
                     /\ exists i j, tok = slice i j "l1 (Obs1) !DUM! [o2]")
         ["Obs1"; "o2"].
Proof.
  apply (parse_ins_string_returns_tokens "l1 (Obs1) !DUM! [o2]"). reflexivity.
Defined.

(** X2. [parse_ins_string] comes to an end on every line: it returns a
    list of tokens or raises [ValueError], the error of [index]; it never
    raises [IndexError]. *)
Theorem parse_ins_string_outcome (s : string) :
  (exists toks, parse_ins_string s = Ok toks)
  \/ parse_ins_string s = Raise ValueError.
Proof.
  destruct (parse_ins_string s) as [toks|e|] eqn:E.
  - left. eauto.
  - right. f_equal. exact (parse_ins_loop_raises _ s 0 [] e E).
  - exfalso. exact (parse_ins_string_total s E).
Qed.

(** X3. A line in which the first opening marker, not in the last
    position, has no matching closing marker after it makes
    [parse_ins_string] raise [ValueError]. *)
Theorem parse_ins_string_first_unclosed (p : string) (o c : ascii) (r : string) :
  no_opening p = true ->
  closing_marker o = Some c ->
  r <> "" ->
  contains c r = false ->
  parse_ins_string (p ++ String o r) = Raise ValueError.
Proof. apply scan_prefix_unclosed. Qed.

Lemma parse_ins_string_first_unclosed_witness :
  parse_ins_string ("l1 w " ++ String "[" "obs1 !x!") = Raise ValueError.
Proof.
  apply (parse_ins_string_first_unclosed "l1 w " "[" "]" "obs1 !x!");
    [reflexivity | reflexivity | discriminate | reflexivity].
Defined.

(** X4. [parse_tpl_file] on a missing file raises the error of [open]; on
    a file whose first line is ptf or jtf and a marker of one character,
    and nothing else, it returns names, whatever the other lines hold; on
    every other file it raises an [Exception] whose message starts with
    "error processing template file", the name of the file and " :". *)
Theorem parse_tpl_file_outcome (fs : filesystem) (tpl_file : string) :
  match open fs tpl_file with
  | Ok f =>
      (tpl_header (fst (readline f))
       /\ exists names, parse_tpl_file fs tpl_file = Ok names)
      \/ (~ tpl_header (fst (readline f))
          /\ exists msg,
               parse_tpl_file fs tpl_file =
               Raise (Exception ("error processing template file " ++ tpl_file
                                   ++ " :" ++ nl ++ msg)%string))
  | Raise e => parse_tpl_file fs tpl_file = Raise e
  | OutOfFuel => True
  end.
Proof.
  unfold parse_tpl_file. destruct (open fs tpl_file) as [f|e|]; cbn [bind]; auto.
  destruct (tpl_try_header f) as [(h0 & marker & Hh & Hm & Hl & ->)|[Hn [e ->]]].
  - left. split; [exists h0, marker; auto|]. cbn [bind]. eauto.
  - right. split; [exact Hn|]. cbn [bind]. eauto.
Qed.

(** X5. When [parse_tpl_file] returns, the names are the trimmed and
    lower-cased forms of a list of raw fields without repetition, and
    the raw fields are exactly the fields of the lines after the first:
    the texts between the first and second marker, the third and fourth,
    and so on. *)
Theorem parse_tpl_file_fields (fs : filesystem) (tpl_file : string)
    (names : list string) :
  parse_tpl_file fs tpl_file = Ok names ->
  exists (f : file) (h0 marker : string) (raw : list string),
    open fs tpl_file = Ok f
    /\ split_ws (strip (fst (readline f))) = [h0; marker]
    /\ NoDup raw
    /\ names = map (fun pn => lower (strip pn)) raw
    /\ forall p,
         In p raw <->
         exists l, In l (snd (readline f)) /\ In p (tpl_fields marker l).
Proof.
  unfold parse_tpl_file.
  destruct (open fs tpl_file) as [f|e|]; cbn [bind]; try discriminate.
  destruct (tpl_try_header f) as [(h0 & marker & Hh & Hm & Hl & ->)|[Hn [e ->]]];
    cbn [bind]; [|discriminate].
  intros H; injection H as <-.
  exists f, h0, marker, (tpl_lines marker (snd (readline f)) []).
  split; [reflexivity|]. split; [exact Hh|].
  split; [apply parser_facts.tpl_lines_NoDup; constructor|].
  split; [reflexivity|].
  intros p. rewrite tpl_lines_In. simpl. tauto.
Qed.

Lemma parse_tpl_file_fields_witness :
  exists (f : file) (h0 marker : string) (raw : list string),
    open tpl_fs "model.tpl" = Ok f
    /\ split_ws (strip (fst (readline f))) = [h0; marker]
    /\ NoDup raw
    /\ ["k1"; "k2"] = map (fun pn => lower (strip pn)) raw
    /\ forall p,
         In p raw <->
         exists l, In l (snd (readline f)) /\ In p (tpl_fields marker l).
Proof.
  apply (parse_tpl_file_fields tpl_fs "model.tpl"). reflexivity.
Defined.

(** X6. [parse_ins_file] raises on a file whose first line has fewer than
    two tokens, or a first token other than pif or jif in any case, or a
    second token that is not one character. *)
Theorem parse_ins_file_header_errors (fs : filesystem) (ins_file : string)
    (f : file) :
  open fs ins_file = Ok f ->
  List.length (split_ws (strip (fst (readline f)))) < 2
  \/ (exists h0,
         nth_error (split_ws (strip (fst (readline f)))) 0 = Some h0 /\
         mem (lower h0) ["pif"; "jif"] = false)
  \/ (exists marker,
         nth_error (split_ws (strip (fst (readline f)))) 1 = Some marker /\
         String.length marker <> 1) ->
  raises (parse_ins_file fs ins_file).
Proof. apply parser_facts.parse_ins_file_header_raises. Qed.

Lemma parse_ins_file_header_errors_witness :
  raises (parse_ins_file [("model.ins", [line "pif ~~"; line "l1 !h1!"])]
                         "model.ins").
Proof.
  apply (parse_ins_file_header_errors
           [("model.ins", [line "pif ~~"; line "l1 !h1!"])] "model.ins"
           [line "pif ~~"; line "l1 !h1!"]).
  - reflexivity.
  - right. right. exists "~~". split; [reflexivity | discriminate].
Defined.

(** X7. [parse_ins_file] puts the names of the lines one after the other:
    on a file whose first line starts with pif or jif and a marker of one
    character and whose other lines can each be scanned, it returns the
    names of the lines in the order of the lines, trimmed and
    lower-cased. A line that holds the marker contributes the tokens of
    its parts outside the marker pairs; a line without the marker
    contributes the tokens of the whole trimmed line. *)
Theorem parse_ins_file_lines (fs : filesystem) (ins_file : string)
    (first h0 marker : string) (rest : list string) (f' : file)
    (names : list (list string)) :
  open fs ins_file = Ok (first :: f') ->
  split_ws (strip first) = h0 :: marker :: rest ->
  mem (lower h0) ["pif"; "jif"] = true ->
  String.length marker = 1 ->
  Forall2 (ins_line marker) f' names ->
  parse_ins_file fs ins_file =
  Ok (map (fun on => lower (strip on)) (concat names)).
Proof.
  intros Hopen Hheader Hh0 Hmarker Hlines.
  rewrite (parser_facts.parse_ins_file_header_accepts
             _ _ _ _ _ _ _ Hopen Hheader Hh0 Hmarker).
  now rewrite (ins_lines_all _ _ _ Hlines).
Qed.

Lemma parse_ins_file_lines_witness :
  parse_ins_file ins_fs "model.ins" =
  Ok (map (fun on => lower (strip on)) (concat [["h1"]; ["H2"]])).
Proof.
  apply (parse_ins_file_lines ins_fs "model.ins" (line "pif ~") "pif" "~" []
           [line "l1 ~,~ !h1!"; line "l1 w (H2) !dum!"]);
    try reflexivity.
  constructor; [|constructor; [|constructor]].
  - exists [[]; ["h1"]]. split; [|reflexivity].
    constructor; [reflexivity|]. constructor; [reflexivity | constructor].
  - reflexivity.
Defined.

(** X8. The exception of a line stops [parse_ins_file]: when the lines
    before it scan and a line without the marker makes the scanner raise,
    the file raises that exception, whatever follows. *)
Theorem parse_ins_file_line_raises (fs : filesystem) (ins_file : string)
    (first h0 marker : string) (rest : list string)
    (pre : file) (names : list (list string)) (bad : string) (post : file)
    (e : exn) :
  open fs ins_file = Ok (first :: pre ++ bad :: post) ->
  split_ws (strip first) = h0 :: marker :: rest ->
  mem (lower h0) ["pif"; "jif"] = true ->
  String.length marker = 1 ->
  Forall2 (ins_line marker) pre names ->
  contains (marker_char marker) bad = false ->
  parse_ins_string (strip bad) = Raise e ->
  parse_ins_file fs ins_file = Raise e.
Proof.
  intros Hopen Hheader Hh0 Hmarker Hpre Hbad He.
  rewrite (parser_facts.parse_ins_file_header_accepts
             _ _ _ _ _ _ _ Hopen Hheader Hh0 Hmarker).
  now rewrite (ins_lines_raise _ _ _ _ _ _ Hpre Hbad He).
Qed.

Lemma parse_ins_file_line_raises_witness :
  parse_ins_file bad_ins_fs "model.ins" = Raise ValueError.
Proof.
  apply (parse_ins_file_line_raises bad_ins_fs "model.ins" (line "pif ~")
           "pif" "~" [] [line "l1 !h1!"] [["h1"]] (line "l1 !h2") [line "l1"]);
    try reflexivity.
  constructor; [reflexivity | constructor].
Defined.

(** X9. Every name that [parse_tpl_file] or [parse_ins_file] returns is
    in normal form: lower-casing it or trimming it changes nothing. *)
Theorem parsers_return_normalized (fs : filesystem) (path : string)
    (names : list string) :
  parse_tpl_file fs path = Ok names \/ parse_ins_file fs path = Ok names ->
  Forall (fun name => lower name = name /\ strip name = name) names.
Proof.
  intros [H|H].
  - destruct (parser_facts.parse_tpl_file_names _ _ _ H) as (raw & _ & ->).
    apply map_normalized.
  - destruct (parse_ins_file_Ok _ _ _ H) as (obs & ->). apply map_normalized.
Qed.

Lemma parsers_return_normalized_witness :
  Forall (fun name => lower name = name /\ strip name = name) ["k1"; "k2"].
Proof.
  apply (parsers_return_normalized tpl_fs "model.tpl"). left. reflexivity.
Defined.

(** X10. [str_con] and the parsers bring names to the same normal form:
    on a name that is not empty, [str_con] gives the trimmed and
    lower-cased name (it lower-cases first, the parsers trim first, and
    the two commute); so a name in normal form that is not empty is left
    as it is. *)
Theorem str_con_normal_form (item : string) :
  item <> "" ->
  str_con item = Str (lower (strip item))
  /\ (normalized item -> str_con item = Str item).
Proof.
  intros Hne. unfold str_con.
  destruct item as [|c item]; [contradiction|]. cbn [String.length Nat.eqb].
  rewrite strip_lower. split; [reflexivity|].
  intros [Hl Hs]. now rewrite Hs, Hl.
Qed.

Lemma str_con_normal_form_witness :
  str_con " K1  " = Str (lower (strip " K1  "))
  /\ (normalized " K1  " -> str_con " K1  " = Str " K1  ").
Proof. apply (str_con_normal_form " K1  "). discriminate. Defined.

(** X11. A name written with [SFMT] and read with [str_con] comes back:
    for a name in normal form that is not empty, [str_con (SFMT name)] is
    the name. The field is 20 characters wide, or as wide as the name
    when the name is longer: [SFMT] never cuts a name. *)
Theorem SFMT_str_con (name : string) :
  normalized name -> name <> "" ->
  str_con (SFMT name) = Str name
  /\ String.length (SFMT name) = Nat.max 20 (String.length name)
  /\ strip (SFMT name) = name.
Proof.
  intros [Hl Hs] Hne. unfold SFMT. split; [|split].
  - unfold str_con.
    assert (String.length (rjust 20 name) <> 0).
    { rewrite length_rjust. lia. }
    destruct (Nat.eqb_spec (String.length (rjust 20 name)) 0); [contradiction|].
    now rewrite strip_lower, strip_rjust, Hs, Hl.
  - apply length_rjust.
  - now rewrite strip_rjust.
Qed.

Lemma SFMT_str_con_witness :
  str_con (SFMT "k1") = Str "k1"
  /\ String.length (SFMT "k1") = Nat.max 20 (String.length "k1")
  /\ strip (SFMT "k1") = "k1".
Proof.
  apply (SFMT_str_con "k1"); [split; reflexivity | discriminate].
Defined.

(** * Further properties of mc.py *)

(** X12. [get_nsing] raises exactly on an empty spectrum, and then the
    [ValueError] of [max]; on every other spectrum it returns a rank that
    is at most the first dimension of [xtqx] and at least that dimension
    less the number of singular values. *)
Theorem get_nsing_outcome (self : MonteCarlo) (epsilon : Q) :
  match get_nsing self epsilon with
  | Ok nsing =>
      s_x (xtqx self) <> []
      /\ (Z.of_nat (fst (xtqx_shape (xtqx self)))
          - Z.of_nat (List.length (s_x (xtqx self))) <= nsing)%Z
      /\ (nsing <= Z.of_nat (fst (xtqx_shape (xtqx self))))%Z
  | Raise e => e = ValueError /\ s_x (xtqx self) = []
  | OutOfFuel => False
  end.
Proof.
  destruct (s_x (xtqx self)) as [|x0 s] eqn:Hs.
  - unfold get_nsing. rewrite Hs. simpl. auto.
  - destruct (max_nonempty (x0 :: s)) as [m Hm]; [discriminate|].
    rewrite <- Hs in Hm. rewrite (get_nsing_count self _ m Hm).
    pose proof (count_le_length (fun y => less y (Fin epsilon))
                  (ratios (s_x (xtqx self)) m)) as Hc.
    rewrite ratios_length, Hs in Hc. rewrite Hs.
    split; [discriminate|]. split; lia.
Qed.

(** X13. With a positive maximum and one singular value per row of
    [xtqx], the largest singular value always counts when epsilon is at
    most 1 (the rank is at least 1), and nothing counts when epsilon is
    above 1 (the rank is 0). *)
Theorem get_nsing_unit_epsilon (self : MonteCarlo) (epsilon m : Q) :
  np.max (s_x (xtqx self)) = Ok m ->
  (0 < m)%Q ->
  fst (xtqx_shape (xtqx self)) = List.length (s_x (xtqx self)) ->
  ((epsilon <= 1)%Q ->
   exists nsing, get_nsing self epsilon = Ok nsing /\ (1 <= nsing)%Z)
  /\ ((1 < epsilon)%Q -> get_nsing self epsilon = Ok 0%Z).
Proof.
  intros Hm Hpos Hshape.
  assert (Hnz : ~ (m == 0)%Q) by (intros E; rewrite E in Hpos; discriminate).
  pose proof (count_ge_less (s_x (xtqx self)) m epsilon Hnz) as Hsum.
  destruct (max_spec _ _ Hm) as [Hin Hle].
  rewrite (get_nsing_count self epsilon m Hm), Hshape. split.
  - intros He. eexists. split; [reflexivity|].
    pose proof (count_ge_In _ m epsilon m Hin (ratio_max m epsilon Hpos He)).
    lia.
  - intros He. f_equal.
    rewrite (count_ge_none (s_x (xtqx self)) m epsilon) in Hsum; [lia|].
    unfold ratios. apply Forall_forall. intros r Hr.
    apply in_map_iff in Hr as [y [<- Hy]].
    apply ratio_below; [exact Hpos | | exact He].
    rewrite Forall_forall in Hle. now apply Hle.
Qed.

Lemma get_nsing_unit_epsilon_witness :
  ((1 # 2 <= 1)%Q ->
   exists nsing,
     get_nsing (engine [8; 4; 2; 1]%Q) (1 # 2) = Ok nsing /\ (1 <= nsing)%Z)
  /\ ((1 < 1 # 2)%Q -> get_nsing (engine [8; 4; 2; 1]%Q) (1 # 2) = Ok 0%Z).
Proof.
  apply (get_nsing_unit_epsilon (engine [8; 4; 2; 1]%Q) (1 # 2) 8);
    reflexivity.
Defined.

(** X14. On a spectrum that comes largest first, with a positive maximum
    and one singular value per row of [xtqx], the rank is the position
    where the spectrum falls below the threshold: the ratio of every
    singular value before position [nsing] is >= epsilon, and the ratio
    of every one from position [nsing] on is < epsilon. So the columns
    that [get_null_proj] keeps are those of the singular values below
    the threshold. *)
Theorem get_nsing_threshold (self : MonteCarlo) (epsilon m : Q) :
  descending (s_x (xtqx self)) ->
  np.max (s_x (xtqx self)) = Ok m ->
  (0 < m)%Q ->
  fst (xtqx_shape (xtqx self)) = List.length (s_x (xtqx self)) ->
  exists nsing : nat,
    get_nsing self epsilon = Ok (Z.of_nat nsing)
    /\ nsing <= List.length (s_x (xtqx self))
    /\ (forall k, k < nsing ->
          np.ge (fdiv (nth k (s_x (xtqx self)) 0%Q) m) (Fin epsilon) = true)
    /\ (forall k, nsing <= k -> k < List.length (s_x (xtqx self)) ->
          np.lt (fdiv (nth k (s_x (xtqx self)) 0%Q) m) (Fin epsilon) = true).
Proof.
  intros Hdesc Hm Hpos Hshape.
  assert (Hnz : ~ (m == 0)%Q) by (intros E; rewrite E in Hpos; discriminate).
  set (s := s_x (xtqx self)) in *.
  pose proof (count_ge_less s m epsilon Hnz) as Hsum.
  destruct (count_prefix (fun r => np.ge r (Fin epsilon)) (ratios s m))
    as [Hbefore Hafter].
  { intros i j Hij Hj. rewrite ratios_length in Hj.
    rewrite !nth_ratios by lia.
    apply ge_fdiv_mono; [exact Hpos | now apply Hdesc]. }
  change (count (fun r => np.ge r (Fin epsilon)) (ratios s m))
    with (count_ge s m epsilon) in Hbefore, Hafter.
  exists (count_ge s m epsilon). split; [|split; [lia|split]].
  - rewrite (get_nsing_count self epsilon m Hm), Hshape. fold s.
    f_equal. lia.
  - intros k Hk. rewrite <- nth_ratios by lia. now apply Hbefore.
  - intros k Hk1 Hk2. specialize (Hafter k Hk1).
    rewrite ratios_length, nth_ratios in Hafter by lia.
    specialize (Hafter Hk2). rewrite fdiv_finite in * by exact Hnz.
    cbn [np.lt]. rewrite ge_Fin in Hafter.
    now apply negb_false_iff in Hafter.
Qed.

Lemma get_nsing_threshold_witness :
  exists nsing : nat,
    get_nsing (engine [8; 4; 2; 1]%Q) (1 # 3) = Ok (Z.of_nat nsing)
    /\ nsing <= 4
    /\ (forall k, k < nsing ->
          np.ge (fdiv (nth k [8; 4; 2; 1]%Q 0%Q) 8) (Fin (1 # 3)) = true)
    /\ (forall k, nsing <= k -> k < 4 ->
          np.lt (fdiv (nth k [8; 4; 2; 1]%Q 0%Q) 8) (Fin (1 # 3)) = true).
Proof.
  apply (get_nsing_threshold (engine [8; 4; 2; 1]%Q) (1 # 3) 8);
    try reflexivity.
  intros i j Hij Hj. simpl in Hj.
  destruct j as [|[|[|[|j]]]]; [| | | |lia];
    destruct i as [|[|[|[|i]]]]; try lia; simpl; discriminate.
Defined.

(** X15. With [nsing] given, [get_null_proj] never raises: it returns a
    square matrix with one row and one column per row of V, labelled by
    the row names of V on both sides, logs its phrase twice and writes no
    file. *)
Theorem get_null_proj_returns (self : MonteCarlo) (nsing : Z) (w : World) :
  exists P : Matrix,
    get_null_proj self (Some nsing) w =
      (Ok P, {| files := files w;
                logged := (logged w ++ [forming nsing]) ++ [forming nsing] |})
    /\ mat.shape P = (nrows (x (v (xtqx self))), nrows (x (v (xtqx self))))
    /\ row_names P = row_names (v (xtqx self))
    /\ col_names P = row_names (v (xtqx self))
    /\ well_shaped (x P).
Proof.
  destruct (mul_T_rows (cols_from (v (xtqx self)) nsing))
    as (P & HP & Hr & Hc & Hrn & Hcn & Hrows).
  exists P. split; [now apply get_null_proj_run|].
  unfold mat.shape, well_shaped. rewrite Hr, Hc, Hrn, Hcn, Hrows.
  cbn [cols_from x nrows row_names].
  split; [reflexivity|]. split; [reflexivity|]. split; [reflexivity|]. split.
  - now rewrite length_map, length_seq.
  - apply Forall_forall. intros r Hin. apply in_map_iff in Hin as [i [<- _]].
    now rewrite length_map, length_seq.
Qed.

(** X16. The matrix that [get_null_proj] returns is symmetric, entry by
    entry, whatever [nsing]. *)
Theorem get_null_proj_symmetric (self : MonteCarlo) (nsing : Z) (w : World)
    (P : Matrix) :
  fst (get_null_proj self (Some nsing) w) = Ok P ->
  forall i j, item (x P) i j = item (x P) j i.
Proof.
  rewrite get_null_proj_result. intros HP i j.
  destruct (mul_T_rows (cols_from (v (xtqx self)) nsing))
    as (P' & HP' & _ & _ & _ & _ & Hrows).
  assert (P' = P) as -> by congruence.
  unfold item. rewrite Hrows, !item_map_seq.
  rewrite (andb_comm (j <? _)).
  destruct ((i <? _) && (j <? _)); [|reflexivity].
  apply fold_left_ext_in. intros acc k _. now rewrite Qmult_comm_eq.
Qed.

Lemma get_null_proj_symmetric_witness :
  item {| nrows := 2; ncols := 2; rows := [[4; 8]; [8; 16]]%Q |} 0 1
  = item {| nrows := 2; ncols := 2; rows := [[4; 8]; [8; 16]]%Q |} 1 0.
Proof.
  exact (get_null_proj_symmetric (engine [3; 1]%Q) 1 world0
           {| x := {| nrows := 2; ncols := 2; rows := [[4; 8]; [8; 16]]%Q |};
              row_names := ["k1"; "k2"]; col_names := ["k1"; "k2"] |}
           eq_refl 0 1).
Defined.

(** X17. With [nsing] at or beyond the number of columns of V, no column
    is left and [get_null_proj] returns the zero matrix. *)
Theorem get_null_proj_beyond (self : MonteCarlo) (nsing : Z) (w : World) :
  (Z.of_nat (ncols (x (v (xtqx self)))) <= nsing)%Z ->
  fst (get_null_proj self (Some nsing) w) =
  Ok (zeros (nrows (x (v (xtqx self)))) (row_names (v (xtqx self)))).
Proof.
  intros Hn. rewrite get_null_proj_result, mc_facts.mul_T.
  assert (Hz : ncols (x (cols_from (v (xtqx self)) nsing)) = 0).
  { unfold cols_from, slice_start. cbn [x ncols].
    destruct (Z.ltb_spec nsing 0); lia. }
  rewrite Hz. unfold zeros. cbn [seq fold_left].
  cbn [cols_from x nrows row_names].
  do 3 f_equal. now rewrite !mc_facts.map_seq_const.
Qed.

Lemma get_null_proj_beyond_witness :
  fst (get_null_proj (engine [3; 1]%Q) (Some 5%Z) world0) =
  Ok (zeros 2 ["k1"; "k2"]).
Proof.
  apply (get_null_proj_beyond (engine [3; 1]%Q) 5 world0). discriminate.
Defined.

(** X18. Every control file that [write_psts] writes has the rows of the
    control file of the engine, in the same order; a parameter that is no
    column of the parameter ensemble keeps the value it has in the
    control file of the engine, and so does an observation that is no
    column of the observation ensemble. *)
Theorem write_psts_keeps_others (inv_log : string -> Q -> Q)
    (self : MonteCarlo) (prefix : string) (w w' : World) :
  write_psts inv_log self prefix w = (Ok tt, w') ->
  exists written,
    files w' = files w ++ written
    /\ forall name q,
         In (name, q) written ->
         labels (parameter_data q) = labels (parameter_data (mc_pst self))
         /\ labels (observation_data q) = labels (observation_data (mc_pst self))
         /\ (forall c, ~ In c (columns (parensemble self)) ->
               series_get (parameter_data q) c =
               series_get (parameter_data (mc_pst self)) c)
         /\ (forall c, ~ In c (columns (obsensemble self)) ->
               series_get (observation_data q) c =
               series_get (observation_data (mc_pst self)) c).
Proof.
  unfold write_psts, bindM at 1, log at 1, for_range.
  rewrite frame_facts.get_all. unfold bindM at 1.
  set (par_en := if islog (parensemble self)
                 then _back_transform inv_log (parensemble self)
                 else parensemble self).
  assert (Hcols : columns par_en = columns (parensemble self))
    by (unfold par_en; now destruct (islog (parensemble self))).
  destruct (for_in _ _ _ _) as [[p'|e|] w1] eqn:Hrun; try discriminate.
  unfold log. intros H; injection H as <-.
  destruct (for_in_write_inv self prefix par_en
              (same_outside (columns par_en) (columns (obsensemble self))
                            (mc_pst self))
              (fun p i q => realize_same_outside self par_en (mc_pst self) p q i)
              _ _ _ _ _ (same_outside_refl _ _ _) Hrun)
    as (written & Hfiles & Hall).
  exists written. split; [exact Hfiles|].
  intros name q Hin. rewrite Forall_forall in Hall.
  specialize (Hall _ Hin). rewrite Hcols in Hall. exact Hall.
Qed.

Lemma write_psts_keeps_others_witness :
  exists written,
    files (snd (write_psts twice partial "r" world0)) = files world0 ++ written
    /\ forall name q,
         In (name, q) written ->
         labels (parameter_data q) = labels (parameter_data (mc_pst partial))
         /\ labels (observation_data q)
            = labels (observation_data (mc_pst partial))
         /\ (forall c, ~ In c (columns (parensemble partial)) ->
               series_get (parameter_data q) c =
               series_get (parameter_data (mc_pst partial)) c)
         /\ (forall c, ~ In c (columns (obsensemble partial)) ->
               series_get (observation_data q) c =
               series_get (observation_data (mc_pst partial)) c).
Proof.
  apply (write_psts_keeps_others twice partial "r" world0). reflexivity.
Defined.


(** * Further properties of the readers and writers of pst_utils.py *)

Import smp smp_facts.

(** X20. [get_phi_comps_from_recfile] never raises the [IndexError] of
    [raw[-1]] or [raw[-3]]: a line with "contribution to phi" has at least
    three tokens. It raises only when the file cannot be opened or when
    [float] refuses a last token, and the dict it returns has the keys
    1, 2, ..., n in that order. *)
Theorem get_phi_comps_outcome (float : string -> option Q) (fs : filesystem)
    (recfile : string) :
  match get_phi_comps_from_recfile float fs recfile with
  | Ok iters => exists n, map fst iters = seq 1 n
  | Raise e =>
      (e = IOError /\ open fs recfile = Raise IOError)
      \/ (e = ValueError /\ exists f, open fs recfile = Ok f)
  | OutOfFuel => False
  end.
Proof.
  unfold get_phi_comps_from_recfile.
  assert (Hopen : open fs recfile = Raise IOError
                  \/ exists f, open fs recfile = Ok f).
  { induction fs as [|[p f] fs IH]; simpl; [now left|].
    destruct (String.eqb p recfile); [right; eauto | exact IH]. }
  destruct Hopen as [->|[f Hf]]; cbn [bind]; [now left|].
  rewrite Hf. cbn [bind].
  destruct (phi_lines float f None 1 []) as [iters|e|] eqn:Hrun.
  - now apply (phi_lines_keys float f None 1 [] iters).
  - right. split; [|eauto]. now apply (phi_lines_raises float f None 1 [] e).
  - now apply (phi_lines_total float f None 1 []) in Hrun.
Qed.

(** X21. For a record file made of reports of phi, each ended by a line
    without "contribution to phi", and of lines that start no report after
    the last one, [get_phi_comps_from_recfile] returns the contributions
    of the reports, numbered from 1 in their order. The line that ends a
    report is not read again: it may itself hold "starting phi for this
    iteration", and still starts no report. *)
Theorem get_phi_comps_reports (float : string -> option Q) (fs : filesystem)
    (recfile : string) (rs : list report) (rest : file) :
  open fs recfile = Ok (concat (map report_lines rs) ++ rest) ->
  Forall (report_ok float) rs ->
  Forall plain_line rest ->
  get_phi_comps_from_recfile float fs recfile = Ok (iterations 1 rs).
Proof.
  intros Hopen Hrs Hrest. unfold get_phi_comps_from_recfile.
  rewrite Hopen. cbn [bind].
  rewrite (phi_lines_reports float rs Hrs rest 1 []); [|reflexivity|lia].
  rewrite <- (app_nil_r rest), (phi_lines_plain float rest [] _ _ Hrest).
  reflexivity.
Qed.

Lemma get_phi_comps_reports_witness :
  get_phi_comps_from_recfile float_of_digits rec_fs "model.rec"
  = Ok (iterations 1 [rec_report]).
Proof.
  apply (get_phi_comps_reports float_of_digits rec_fs "model.rec"
           [rec_report] [line "optimisation complete"]).
  - reflexivity.
  - constructor; [|constructor].
    split; [|split; [|split; [|split; [|split]]]].
    + constructor; [|constructor]. split; [discriminate | reflexivity].
    + discriminate.
    + reflexivity.
    + constructor; [|constructor; [|constructor]].
      * split; [discriminate|]. split; [reflexivity|].
        exists "7", "heads". now vm_compute.
      * split; [discriminate|]. split; [reflexivity|].
        exists "5", "flows". now vm_compute.
    + discriminate.
    + reflexivity.
  - constructor; [|constructor]. split; [discriminate | reflexivity].
Defined.

(** X22. A report of phi that the end of the file cuts short is left out:
    the contributions read so far are dropped, and the reports before it
    are returned. *)
Theorem get_phi_comps_cut_report (float : string -> option Q) (fs : filesystem)
    (recfile : string) (rs : list report) (pre : file) (header : string)
    (block : file) (gvs : list (string * Q)) :
  open fs recfile = Ok (concat (map report_lines rs) ++ pre ++ header :: block) ->
  Forall (report_ok float) rs ->
  Forall plain_line pre ->
  header <> "" -> starts_phi header = true ->
  Forall2 (contribution_line float) block gvs ->
  get_phi_comps_from_recfile float fs recfile = Ok (iterations 1 rs).
Proof.
  intros Hopen Hrs Hpre Hne Hstart Hblock. unfold get_phi_comps_from_recfile.
  rewrite Hopen. cbn [bind].
  rewrite (phi_lines_reports float rs Hrs _ 1 []); [|reflexivity|lia].
  rewrite (phi_lines_plain float pre _ _ _ Hpre).
  cbn [phi_lines]. apply String.eqb_neq in Hne. rewrite Hne, Hstart.
  rewrite <- (app_nil_r block), (phi_lines_block float block gvs [] _ _ Hblock).
  reflexivity.
Qed.

Lemma get_phi_comps_cut_report_witness :
  get_phi_comps_from_recfile float_of_digits cut_fs "cut.rec"
  = Ok (iterations 1 []).
Proof.
  apply (get_phi_comps_cut_report float_of_digits cut_fs "cut.rec" [] []
           (line "Final phi") [line "contribution to phi from group a = 1"]
           [("a", 1%Q)]).
  - reflexivity.
  - constructor.
  - constructor.
  - discriminate.
  - reflexivity.
  - constructor; [|constructor].
    split; [discriminate|]. split; [reflexivity|].
    exists "1", "a". now vm_compute.
Defined.

(** X23. [read_resfile] takes as header the first line that holds "name"
    in any case: the column names are the tokens of that line in lower
    case, and [pd.read_csv] gets the lines after it, whatever the lines
    before it were. *)
Theorem read_resfile_header (DataFrame : Type)
    (read_csv : file -> list string -> result DataFrame)
    (fs : filesystem) (resfile : string) (pre : file) (header : string)
    (rest : file) :
  open fs resfile = Ok (pre ++ header :: rest) ->
  Forall before_header pre ->
  header <> "" ->
  occurs_in "name" (lower header) = true ->
  read_resfile DataFrame read_csv fs resfile
  = read_csv rest (split_ws (strip (lower header))).
Proof.
  intros Hopen Hpre Hne Hname. unfold read_resfile, exists_.
  rewrite Hopen. cbn [bind]. rewrite (find_header_skip resfile pre _ Hpre).
  cbn [find_header]. apply String.eqb_neq in Hne. rewrite Hne, Hname.
  reflexivity.
Qed.

Lemma read_resfile_header_witness :
  read_resfile (file * list string) examples_more.read_csv res_fs "model.res"
  = Ok ([line " h1    heads  1.0       2.0"],
        ["name"; "group"; "measured"; "modelled"]).
Proof.
  apply (read_resfile_header (file * list string) examples_more.read_csv
           res_fs "model.res" [line "residuals of the run"]
           (line " Name  Group  Measured  Modelled")
           [line " h1    heads  1.0       2.0"]).
  - reflexivity.
  - constructor; [|constructor]. split; [discriminate | reflexivity].
  - discriminate.
  - reflexivity.
Defined.

(** X24. When no line of the residual file holds "name", [read_resfile]
    raises and never calls [pd.read_csv]: the [AssertionError] of the
    missing file when the file is not there, and else the [Exception] of
    the end of the file. *)
Theorem read_resfile_no_header (DataFrame : Type)
    (read_csv : file -> list string -> result DataFrame)
    (fs : filesystem) (resfile : string) :
  (forall f, open fs resfile = Ok f -> Forall before_header f) ->
  read_resfile DataFrame read_csv fs resfile =
  match open fs resfile with
  | Ok _ =>
      Raise (Exception ("Pst.get_residuals: EOF before finding "
                          ++ "header in resfile: " ++ resfile)%string)
  | _ =>
      Raise (AssertionError
               ("read_resfile() error: resfile " ++ resfile ++ " not found")%string)
  end.
Proof.
  intros Hall. unfold read_resfile, exists_.
  destruct (open fs resfile) as [f| |] eqn:Hopen; try reflexivity.
  cbn [bind]. specialize (Hall f eq_refl).
  rewrite <- (app_nil_r f), (find_header_skip resfile f [] Hall).
  reflexivity.
Qed.

Lemma read_resfile_no_header_witness :
  read_resfile (file * list string) examples_more.read_csv headless_fs
    "model.res"
  = Raise (Exception ("Pst.get_residuals: EOF before finding "
                        ++ "header in resfile: " ++ "model.res")%string).
Proof.
  apply (read_resfile_no_header (file * list string) examples_more.read_csv
           headless_fs "model.res").
  intros f Hf. injection Hf as <-.
  constructor; [|constructor; [|constructor]];
    (split; [discriminate | reflexivity]).
Defined.

(** X25. When [smp_to_ins] returns, the frame has the site names of the
    frame that [smp_to_dataframe] loaded, row by row, and every row is
    named: it has a site name (no row without one lets the call return),
    its observation name is that site name, an underscore and digits, of
    at most 20 characters, and its instruction is "l1 w w w  !" with the
    observation name and "!". *)
Theorem smp_to_ins_names
    (smp_to_dataframe : filesystem -> string -> outcome (list row))
    (fs : filesystem) (smp_filename : string) (ins_filename : option string)
    (fs' : filesystem) (df : list row) :
  smp_to_ins smp_to_dataframe fs smp_filename ins_filename
  = (fs', Returns df) ->
  exists loaded onames,
    smp_to_dataframe fs smp_filename = Returns loaded
    /\ map name df = map name loaded
    /\ Forall2 named df onames.
Proof.
  intros H.
  destruct (smp_to_ins_returns _ _ _ _ _ _ H)
    as (loaded & onames & Hl & Hn & Hall & _).
  now exists loaded, onames.
Qed.

Lemma smp_to_ins_names_witness :
  exists loaded onames,
    load_samples [] "obs.smp" = Returns loaded
    /\ map name named_samples = map name loaded
    /\ Forall2 named named_samples onames.
Proof.
  apply (smp_to_ins_names load_samples [] "obs.smp" None smp_fs named_samples).
  reflexivity.
Defined.

(** X26. The instruction file that [smp_to_ins] writes reads back: when
    the call returns and no site name holds "!", "~" or a line feed,
    [parse_ins_file] on the file written returns the observation names of
    the frame, row by row, stripped and in lower case. *)
Theorem smp_to_ins_round_trip
    (smp_to_dataframe : filesystem -> string -> outcome (list row))
    (fs : filesystem) (smp_filename : string) (ins_filename : option string)
    (fs' : filesystem) (df : list row) :
  smp_to_ins smp_to_dataframe fs smp_filename ins_filename
  = (fs', Returns df) ->
  plain_names df ->
  exists onames,
    map observation_names df = map Some onames
    /\ parse_ins_file fs' (ins_path smp_filename ins_filename)
       = Ok (map (fun on => lower (strip on)) onames).
Proof.
  intros H Hplain.
  destruct (smp_to_ins_returns _ _ _ _ _ _ H)
    as (loaded & onames & _ & _ & Hall & ->).
  exists onames. split.
  - clear -Hall. induction Hall as [|r on df onames Hn Hrest IH];
      [reflexivity|].
    cbn [map]. rewrite IH. f_equal.
    now destruct Hn as (nm & sfx & _ & _ & _ & _ & Ho & _).
  - pose proof (named_lines df onames Hplain Hall) as Hlines.
    rewrite (parser_facts.parse_ins_file_header_accepts _ _ ("pif ~" ++ nl)%string
               "pif" "~" []
               (map (fun on => ins_string on ++ nl)%string onames)).
    + now rewrite (ins_lines_written onames Hlines).
    + cbn [open]. rewrite String.eqb_refl. f_equal.
      now apply ins_file_lines.
    + reflexivity.
    + reflexivity.
    + reflexivity.
Qed.

Lemma smp_to_ins_round_trip_witness :
  exists onames,
    map observation_names named_samples = map Some onames
    /\ parse_ins_file smp_fs (ins_path "obs.smp" None)
       = Ok (map (fun on => lower (strip on)) onames).
Proof.
  apply (smp_to_ins_round_trip load_samples [] "obs.smp" None smp_fs
           named_samples).
  - reflexivity.
  - repeat constructor.
Defined.
